(** * saaslet.js: event bus, request transport, account client, widget registry

    A shallow embedding of [saaslet.js] (classes [EventEmitter], [Widget],
    [Saaslet], [User] and the functions [get], [post], [getPromise],
    [sendRequest], [createXMLHTTPObject]) together with the properties of
    its specification.

    Conventions.
    - A JS object used as a dictionary ([this.listener],
      [this.activeWidgets]) is a [gmap string _]; keys are event names
      and widget ids, not names inherited from [Object.prototype].
    - A JS array is a [list]; [a[i]] is [a !! i], [a.splice(i, 1)] is
      [delete i a].
    - Object identity ([===] on objects) is an allocation number carried
      by the object.
    - A JS computation that may throw returns a [completion]. *)

From stdpp Require Import gmap strings list pretty.
From Stdlib Require Import ZArith.

Open Scope Z_scope.

(** ** JavaScript values and completions *)

Module Js.

(** The JS values that travel through the library: JSON data, the
    response envelope, and the error objects that are thrown. *)
#[warnings="-register-all"]
Inductive value : Type :=
| VUndefined
| VNull
| VBool (b : bool)
| VNumber (n : Z)
| VString (s : string)
| VArray (items : list value)
| VObject (fields : list (string * value))
| VError (name : string).

Definition TypeError : value := VError "TypeError".
Definition SyntaxError : value := VError "SyntaxError".

(** Outcome of running a piece of JS on a state of type [S]: it returns
    [a], or throws [e], or (for the loops that listeners can keep alive)
    is still running, in state [s], after the given number of steps. *)
Inductive completion (S A : Type) : Type :=
| Normal (s : S) (a : A)
| Thrown (s : S) (e : value)
| OutOfFuel (s : S).
Arguments Normal {S A} s a.
Arguments Thrown {S A} s e.
Arguments OutOfFuel {S A} s.

Definition state_of {S A : Type} (c : completion S A) : S :=
  match c with
  | Normal s _ | Thrown s _ | OutOfFuel s => s
  end.

Definition returns_normally {S A : Type} (c : completion S A) : Prop :=
  match c with
  | Normal _ _ => True
  | _ => False
  end.

Definition completes {S A : Type} (c : completion S A) : Prop :=
  match c with
  | OutOfFuel _ => False
  | _ => True
  end.

(** [v.k]: reading a property of [undefined] or [null] throws a
    TypeError (here [None]); a missing property reads as [undefined]. *)
Fixpoint assoc (k : string) (fields : list (string * value)) : option value :=
  match fields with
  | [] => None
  | (k', v) :: rest => if decide (k = k') then Some v else assoc k rest
  end.

Definition get_property (v : value) (k : string) : option value :=
  match v with
  | VUndefined | VNull => None
  | VObject fields => Some (default VUndefined (assoc k fields))
  | _ => Some VUndefined
  end.

(** State of a promise. A settled promise never changes again. *)
Inductive settled : Type :=
| Pending
| Resolved (v : value)
| Rejected (reason : value).

(** Calls made on the [resolve] and [reject] functions that
    [new Promise] hands to its executor. *)
Inductive capability_call : Type :=
| CallResolve (v : value)
| CallReject (reason : value).

Definition first_call (calls : list capability_call) : settled :=
  match calls with
  | [] => Pending
  | CallResolve v :: _ => Resolved v
  | CallReject e :: _ => Rejected e
  end.

(** [new Promise(executor)]: [during] are the calls the executor makes
    while it runs, [thrown] what it throws (if it does), [later] the
    calls made afterwards by callbacks it installed. The first call
    settles the promise; an executor that throws before any call
    rejects it. *)
Definition new_Promise (during : list capability_call)
    (thrown : option value) (later : list capability_call) : settled :=
  match during, thrown with
  | _ :: _, _ => first_call during
  | [], Some e => Rejected e
  | [], None => first_call later
  end.

(** A callback given to [then] or [catch]: the capability calls it makes
    and the value it returns ([inl]) or throws ([inr]). *)
Definition callback : Type :=
  value → list capability_call * (value + value).

Definition settle_with (r : value + value) : settled :=
  match r with
  | inl v => Resolved v
  | inr e => Rejected e
  end.

(** [p.then(onFulfilled)]: the calls made when [p] has reached state [p],
    and the state of the promise that [then] returns. *)
Definition then_ (p : settled) (onFulfilled : callback)
    : list capability_call * settled :=
  match p with
  | Pending => ([], Pending)
  | Resolved v => let '(calls, r) := onFulfilled v in (calls, settle_with r)
  | Rejected e => ([], Rejected e)
  end.

(** [p.catch(onRejected)]. *)
Definition catch_ (p : settled) (onRejected : callback)
    : list capability_call * settled :=
  match p with
  | Pending => ([], Pending)
  | Resolved v => ([], Resolved v)
  | Rejected e => let '(calls, r) := onRejected e in (calls, settle_with r)
  end.

End Js.

Import Js.

(** ** class EventEmitter *)

Module EventEmitter.

(** One entry of [this.listener[eventName]]: the object literal pushed by
    [on]. [rid] is the identity of that object; [fn] and [context] are
    the identities of the callback and of the context object
    ([None] for [undefined]); [order] is [None] when not given. *)
Record registration : Type := Registration {
  rid : nat;
  eventName : string;
  fn : nat;
  context : option nat;
  order : option Z
}.

#[global] Instance registration_eq_dec : EqDecision registration.
Proof. solve_decision. Defined.

(** What the bus did, in order: calls of [emit] and invocations of
    listeners. Instrumentation only; no operation reads it. *)
Inductive event : Type :=
| Emitted (name : string)
| Invoked (r : registration).

#[global] Instance event_eq_dec : EqDecision event.
Proof. solve_decision. Defined.

Record t : Type := Bus {
  listener : gmap string (list registration);
  allocated : nat;
  trace : list event
}.

(** [constructor]: [this.listener = {}]. *)
Definition create : t :=
  {| listener := ∅; allocated := 0%nat; trace := [] |}.

Definition log (ev : event) (s : t) : t :=
  {| listener := listener s; allocated := allocated s;
     trace := trace s ++ [ev] |}.

(** [a.order > b.order]: false as soon as one side is [undefined]. *)
Definition order_gt (a b : option Z) : bool :=
  match a, b with
  | Some x, Some y => Z.gtb x y
  | _, _ => false
  end.

(** The comparator handed to [sort]:
    [(a,b) => a.order > b.order ? 1 : -1]. *)
Definition compare_order (a b : registration) : Z :=
  if order_gt (order a) (order b) then 1 else -1.

(** What a callback does when invoked: it may register and unregister
    listeners on the bus that invokes it, and then returns [false],
    returns something else, or throws. *)
Inductive call : Type :=
| CallOn (e : string) (f : nat) (c : option nat) (o : option Z)
| CallOff (e : string) (f : nat) (c : option nat).

Inductive returned : Type :=
| ReturnFalse
| ReturnOther
| Throw (e : value).

Record behaviour : Type := Behaviour {
  body : list call;
  result : returned
}.

(** [off]'s loop, [var i = length; while( i-- ) { ... splice( i, 1 ) }]:
    [off_scan f c i bucket] is the loop entered with counter [i]. The
    counter starts at the length and a splice only shortens the array
    above it, so the index read is always in range. *)
Fixpoint off_scan (f : nat) (c : option nat) (i : nat)
    (bucket : list registration) : list registration :=
  match i with
  | O => bucket
  | S j =>
      match bucket !! j with
      | Some r =>
          if decide (fn r = f ∧ context r = c)
          then off_scan f c j (delete j bucket)
          else off_scan f c j bucket
      | None => off_scan f c j bucket
      end
  end.

Definition off (e : string) (f : nat) (c : option nat) (s : t) : t :=
  match listener s !! e with
  | None => s
  | Some bucket =>
      let bucket' := off_scan f c (length bucket) bucket in
      {| listener :=
           if decide (length bucket' = 0%nat)
           then delete e (listener s)
           else <[e := bucket']> (listener s);
         allocated := allocated s;
         trace := trace s |}
  end.

Section Engine.

(** [Array.prototype.sort] of the host engine. With a comparator that is
    not consistent, as [compare_order] is, the standard only promises
    that the array is rearranged. *)
Variable array_sort :
  (registration → registration → Z) → list registration → list registration.

(** The function objects of the page, by identity. *)
Variable code : nat → behaviour.

Definition on (e : string) (f : nat) (c : option nat) (o : option Z)
    (s : t) : t :=
  let bucket := default [] (listener s !! e) in
  let r := {| rid := allocated s; eventName := e; fn := f;
              context := c; order := o |} in
  {| listener := <[e := array_sort compare_order (bucket ++ [r])]> (listener s);
     allocated := S (allocated s);
     trace := trace s |}.

Definition run_call (c : call) (s : t) : t :=
  match c with
  | CallOn e f c o => on e f c o s
  | CallOff e f c => off e f c s
  end.

Definition run_body (cs : list call) (s : t) : t :=
  foldl (λ s c, run_call c s) s cs.

(** [this.listener[ eventName ] && this.listener[ eventName ][ i ]] *)
Definition slot (e : string) (i : nat) (s : t) : option registration :=
  listener s !! e ≫= λ bucket, bucket !! i.

(** The [while] loop of [emit], entered with index [i]. *)
Fixpoint emit_loop (fuel : nat) (e : string) (i : nat) (s : t)
    : completion t unit :=
  match fuel with
  | O => OutOfFuel s
  | S fuel' =>
      match slot e i s with
      | None => Normal s tt
      | Some last =>
          let s1 := run_body (body (code (fn last))) (log (Invoked last) s) in
          match result (code (fn last)) with
          | Throw err => Thrown s1 err
          | ReturnFalse => Normal s1 tt
          | ReturnOther =>
              let i' :=
                match slot e i s1 with
                | Some r => if decide (rid r = rid last) then S i else i
                | None => i
                end in
              emit_loop fuel' e i' s1
          end
      end
  end.

Definition emit (fuel : nat) (e : string) (s : t) : completion t unit :=
  let s := log (Emitted e) s in
  match listener s !! e with
  | None => Normal s tt
  | Some _ => emit_loop fuel e 0%nat s
  end.

(** [hasListeners]: [undefined] (falsy) without a bucket. (For an event
    name that is not inherited from [Object.prototype]; see
    [plain_name] below.) *)
Definition hasListeners (e : string) (s : t) : bool :=
  match listener s !! e with
  | None => false
  | Some bucket => bool_decide (0 < length bucket)%nat
  end.

End Engine.

(** A reference engine for [Array.prototype.sort]: insertion sort, as
    engines use on short arrays. [sink cmp x left] takes the already
    placed elements nearest first and moves [x] left past every [y] with
    [cmp y x > 0]. *)
Fixpoint sink (cmp : registration → registration → Z) (x : registration)
    (left : list registration) : list registration :=
  match left with
  | [] => [x]
  | y :: rest =>
      if decide (0 < cmp y x) then y :: sink cmp x rest else x :: y :: rest
  end.

Definition insertion_sort (cmp : registration → registration → Z)
    (l : list registration) : list registration :=
  reverse (foldl (λ placed x, sink cmp x placed) [] l).

(** Callbacks that touch nothing and return [undefined]. *)
Definition quiet : nat → behaviour :=
  λ _, {| body := []; result := ReturnOther |}.

(** Number of registrations of callback [f] with context [c] for [e]. *)
Definition matching (f : nat) (c : option nat) (r : registration) : Prop :=
  fn r = f ∧ context r = c.

#[global] Instance matching_dec f c r : Decision (matching f c r).
Proof. unfold matching. apply _. Defined.

Definition bucket_of (e : string) (s : t) : list registration :=
  default [] (listener s !! e).

Definition registered (e : string) (f : nat) (c : option nat) (s : t) : nat :=
  length (filter (matching f c) (bucket_of e s)).

(** The object literal that [on] pushes. *)
Definition pushed (e : string) (f : nat) (c : option nat) (o : option Z)
    (s : t) : registration :=
  {| rid := allocated s; eventName := e; fn := f; context := c; order := o |}.

(** [r] is in one of the arrays of [this.listener]. *)
Definition live (r : registration) (s : t) : Prop :=
  ∃ e bucket, listener s !! e = Some bucket ∧ r ∈ bucket.

(** Every registration object in the bus has been allocated, and
    distinct objects have distinct identities. *)
Definition well_formed (s : t) : Prop :=
  (∀ r, live r s → (rid r < allocated s)%nat) ∧
  (∀ r1 r2, live r1 s → live r2 s → rid r1 = rid r2 → r1 = r2).

(** The object with identity [k] has been allocated and is in no array
    of the bus. *)
Definition absent (k : nat) (s : t) : Prop :=
  (k < allocated s)%nat ∧ ∀ r, live r s → rid r ≠ k.

(** The listener invocations recorded in a trace. *)
Definition invoked (r : registration) (s : t) : Prop :=
  Invoked r ∈ trace s.

(** Calls that the page makes on the bus, one after the other. *)
Inductive action : Type :=
| Do (c : call)
| Emit (fuel : nat) (e : string).

Section Script.

Variable array_sort :
  (registration → registration → Z) → list registration → list registration.
Variable code : nat → behaviour.

Definition act (a : action) (s : t) : t :=
  match a with
  | Do c => run_call array_sort c s
  | Emit fuel e => state_of (emit array_sort code fuel e s)
  end.

Definition run_actions (script : list action) (s : t) : t :=
  foldl (λ s a, act a s) s script.

(** What an emission on [bucket] invokes when no listener touches the
    bus: the entries in order, up to and including the first one that
    returns [false] or throws. *)
Fixpoint dispatched (bucket : list registration) : list registration :=
  match bucket with
  | [] => []
  | r :: rest =>
      r :: match result (code (fn r)) with
           | ReturnOther => dispatched rest
           | _ => []
           end
  end.

(** A listener that at most unregisters itself from [e] and returns
    [undefined]. *)
Definition removes_at_most_itself (e : string) (r : registration) : Prop :=
  result (code (fn r)) = ReturnOther
  ∧ (body (code (fn r)) = []
     ∨ body (code (fn r)) = [CallOff e (fn r) (context r)]).

(** The entries that such listeners leave in the bucket. *)
Definition stays (r : registration) : Prop := body (code (fn r)) = [].

#[global] Instance stays_dec r : Decision (stays r).
Proof. unfold stays. destruct (body (code (fn r))); [left|right]; done. Defined.

End Script.

(** The callback and context of a registration, which [off] matches. *)
Definition pair_of (r : registration) : nat * option nat :=
  (fn r, context r).

(** Sample callbacks: function 1 unregisters itself from [login] (with
    no context) when it runs, function 3 returns [false], the others
    touch nothing and return [undefined]. *)
Definition sample_code (f : nat) : behaviour :=
  if decide (f = 1%nat)
  then {| body := [CallOff "login" 1%nat None]; result := ReturnOther |}
  else if decide (f = 3%nat)
  then {| body := []; result := ReturnFalse |}
  else {| body := []; result := ReturnOther |}.

(** Callbacks that touch nothing; function 3 returns [false]. *)
Definition stopping_code (f : nat) : behaviour :=
  if decide (f = 3%nat)
  then {| body := []; result := ReturnFalse |}
  else {| body := []; result := ReturnOther |}.

(** The names that [this.listener], a plain object, inherits from
    [Object.prototype]. For them [this.listener[ e ]] is the inherited
    member and not an array of registrations ([on] and [off] throw on
    it, [hasListeners] reads its [length]); the dictionary above stands
    for the other names. *)
Definition prototype_names : list string :=
  [ "constructor"; "hasOwnProperty"; "isPrototypeOf";
    "propertyIsEnumerable"; "toLocaleString"; "toString"; "valueOf";
    "__proto__"; "__defineGetter__"; "__defineSetter__";
    "__lookupGetter__"; "__lookupSetter__" ].

Definition plain_name (e : string) : Prop := e ∉ prototype_names.

Definition call_event (c : call) : string :=
  match c with
  | CallOn e _ _ _ | CallOff e _ _ => e
  end.

Definition action_event (a : action) : string :=
  match a with
  | Do c => call_event c
  | Emit _ e => e
  end.

(** No array of [this.listener] is empty. *)
Definition no_empty_bucket (s : t) : Prop :=
  ∀ e bucket, listener s !! e = Some bucket → bucket ≠ [].

(** Every registration sits in the array of its own event. *)
Definition keyed (s : t) : Prop :=
  ∀ e bucket r, listener s !! e = Some bucket → r ∈ bucket → eventName r = e.

End EventEmitter.

(** ** get, post, getPromise, sendRequest, createXMLHTTPObject *)

Module Transport.

(** What the page can construct: whether [XMLHttpRequest] exists and for
    which program ids [new ActiveXObject(id)] succeeds. *)
Record environment : Type := Environment {
  has_XMLHttpRequest : bool;
  has_ActiveXObject : string → bool
}.

(** The [transformFn] argument: it reads the envelope, may use the event
    bus of the [Saaslet] instance, and returns or throws. *)
Definition transform : Type :=
  value → EventEmitter.t → completion EventEmitter.t value.

(** The closure stored in [req.onreadystatechange]: it captures
    [promise] and [transformFn]. *)
Record handler : Type := Handler {
  h_promise : nat;
  h_transform : option transform
}.

(** A request object, with the fields [sendRequest] touches. [sent]
    holds the argument of [req.send]. *)
Record request : Type := Request {
  constructed_by : string;
  withCredentials : bool;
  opened : option (string * string * bool);
  headers : list (string * string);
  readyState : Z;
  onreadystatechange : option handler;
  sent : option (option string)
}.

Record world : Type := World {
  bus : EventEmitter.t;
  promises : list settled;
  requests : list request
}.

Definition with_bus (b : EventEmitter.t) (w : world) : world :=
  {| bus := b; promises := promises w; requests := requests w |}.

Definition fresh (kind : string) : request :=
  {| constructed_by := kind; withCredentials := false; opened := None;
     headers := []; readyState := 0; onreadystatechange := None;
     sent := None |}.

Definition new_XMLHttpRequest (env : environment) : option request :=
  if has_XMLHttpRequest env then Some (fresh "XMLHttpRequest") else None.

Definition new_ActiveXObject (progid : string) (env : environment)
    : option request :=
  if has_ActiveXObject env progid then Some (fresh progid) else None.

(** Each factory returns an object or throws ([None]). *)
Definition XMLHttpFactories : list (environment → option request) :=
  [ new_XMLHttpRequest;
    new_ActiveXObject "Msxml3.XMLHTTP";
    new_ActiveXObject "Msxml2.XMLHTTP.6.0";
    new_ActiveXObject "Msxml2.XMLHTTP.3.0";
    new_ActiveXObject "Msxml2.XMLHTTP";
    new_ActiveXObject "Microsoft.XMLHTTP" ].

(** The [for] loop of [createXMLHTTPObject]: [continue] on a throw,
    [break] on the first object. [None] is the initial [false]. *)
Fixpoint first_factory (fs : list (environment → option request))
    (env : environment) : option request :=
  match fs with
  | [] => None
  | f :: rest =>
      match f env with
      | None => first_factory rest env
      | Some xmlhttp => Some xmlhttp
      end
  end.

Definition createXMLHTTPObject (env : environment) : option request :=
  first_factory XMLHttpFactories env.

(** [getPromise]: a new pending promise whose [resolve] and [reject] are
    reachable from outside. *)
Definition getPromise (w : world) : world * nat :=
  ({| bus := bus w; promises := promises w ++ [Pending];
      requests := requests w |},
   length (promises w)).

Definition promise_state (p : nat) (w : world) : settled :=
  default Pending (promises w !! p).

(** [promise.resolve(v)] and [promise.reject(e)]: no effect on a promise
    that is already settled. *)
Definition settle (p : nat) (outcome : settled) (w : world) : world :=
  match promises w !! p with
  | Some Pending =>
      {| bus := bus w; promises := <[p := outcome]> (promises w);
         requests := requests w |}
  | _ => w
  end.

Definition resolve (p : nat) (v : value) : world → world :=
  settle p (Resolved v).
Definition reject (p : nat) (e : value) : world → world :=
  settle p (Rejected e).

(** Truthiness of [postData]: [null], [undefined] and the empty string
    are falsy. *)
Definition truthy (postData : option string) : bool :=
  match postData with
  | None => false
  | Some s => negb (bool_decide (s = EmptyString))
  end.

(** [{ status: req.status, data: JSON.parse( req.responseText ) }] *)
Definition envelope (status : Z) (data : value) : value :=
  VObject [("status", VNumber status); ("data", data)].

Section Json.

(** [JSON.parse]; [None] when it throws a SyntaxError. *)
Variable JSON_parse : string → option value.
(** [JSON.stringify]; [None] when it returns [undefined]. *)
Variable JSON_stringify : value → option string.

(** [sendRequest]. The result is the returned value: [Some promise], or
    [None] for the [undefined] of a bare [return]. *)
Definition sendRequest (env : environment) (url : string)
    (postData : option string) (transformFn : option transform)
    (w : world) : world * option nat :=
  let req := createXMLHTTPObject env in
  let '(w, promise) := getPromise w in
  let method := if truthy postData then "POST" else "GET" in
  match req with
  | None =>
      (reject promise (VString "Could not create XMLHTTPObject") w, None)
  | Some req =>
      let req :=
        {| constructed_by := constructed_by req;
           withCredentials := true;
           opened := Some (method, url, true);
           headers := headers req ++ [("Content-type", "application/json")];
           readyState := 1;
           onreadystatechange :=
             Some {| h_promise := promise; h_transform := transformFn |};
           sent := sent req |} in
      if decide (readyState req = 4)
      then ({| bus := bus w; promises := promises w;
               requests := requests w ++ [req] |}, None)
      else
        ({| bus := bus w; promises := promises w;
            requests := requests w ++
              [ {| constructed_by := constructed_by req;
                   withCredentials := withCredentials req;
                   opened := opened req;
                   headers := headers req;
                   readyState := readyState req;
                   onreadystatechange := onreadystatechange req;
                   sent := Some postData |} ] |},
         Some promise)
  end.

Definition get (env : environment) (url : string)
    (transformFn : option transform) : world → world * option nat :=
  sendRequest env url None transformFn.

Definition post (env : environment) (url : string) (data : value)
    (transformFn : option transform) : world → world * option nat :=
  sendRequest env url (JSON_stringify data) transformFn.

(** The function assigned to [req.onreadystatechange], called by the
    browser with the request in state [state] and, once complete, its
    [status] and [responseText]. *)
Definition run_handler (h : handler) (state status : Z)
    (responseText : string) (w : world) : completion world unit :=
  if negb (bool_decide (state = 4)) then Normal w tt
  else
    match JSON_parse responseText with
    | None => Thrown w SyntaxError
    | Some data =>
        let responseData := envelope status data in
        if negb (bool_decide (status = 200)) && negb (bool_decide (status = 304))
        then Normal (reject (h_promise h) responseData w) tt
        else
          match h_transform h with
          | None => Normal (resolve (h_promise h) responseData w) tt
          | Some transformFn =>
              match transformFn responseData (bus w) with
              | Normal b v => Normal (resolve (h_promise h) v (with_bus b w)) tt
              | Thrown b e => Thrown (with_bus b w) e
              | OutOfFuel b => OutOfFuel (with_bus b w)
              end
          end
    end.

(** The browser fires [readystatechange] on request number [k]. *)
Definition readystatechange (k : nat) (state status : Z)
    (responseText : string) (w : world) : completion world unit :=
  match requests w !! k ≫= onreadystatechange with
  | None => Normal w tt
  | Some h => run_handler h state status responseText w
  end.

(** What happens to a page over time: the library is asked to send a
    request, or the browser fires [readystatechange] on a request. *)
Inductive happening : Type :=
| Asked (env : environment) (url : string) (postData : option string)
    (transformFn : option transform)
| Fired (k : nat) (state status : Z) (responseText : string).

Definition happen (h : happening) (w : world) : world :=
  match h with
  | Asked env url postData transformFn =>
      (sendRequest env url postData transformFn w).1
  | Fired k state status responseText =>
      state_of (readystatechange k state status responseText w)
  end.

Definition history (hs : list happening) (w : world) : world :=
  foldl (λ w h, happen h w) w hs.

End Json.

(** The promise that the handler of a request settles. *)
Definition promise_of (r : request) : option nat :=
  h_promise <$> onreadystatechange r.

(** What [sendRequest] has done to a request object by the time it is
    in the world: credentials on, opened as an asynchronous GET or POST
    (POST exactly for a truthy body), declared as JSON, handler
    installed, sent. *)
Definition as_sent (r : request) : Prop :=
  withCredentials r = true
  ∧ headers r = [("Content-type", "application/json")]
  ∧ is_Some (onreadystatechange r)
  ∧ ∃ body url,
      sent r = Some body
      ∧ opened r = Some (if truthy body then "POST" else "GET", url, true).

(** Every request of the world is as [sendRequest] leaves it, and the
    requests hold distinct promises of the world. *)
Definition orderly (w : world) : Prop :=
  Forall as_sent (requests w)
  ∧ (∀ r p, r ∈ requests w → promise_of r = Some p →
            (p < length (promises w))%nat)
  ∧ NoDup (promise_of <$> requests w).

(** The statuses on which the handler resolves. *)
Definition success (status : Z) : Prop := status = 200 ∨ status = 304.

#[global] Instance success_dec status : Decision (success status).
Proof. unfold success. apply _. Defined.

(** Observations used to state what a call did. *)
Definition is_settled (st : settled) : Prop :=
  match st with
  | Pending => False
  | _ => True
  end.

(** The requests that were handed to the network. *)
Definition on_the_wire (w : world) : list request :=
  filter (λ r, is_Some (sent r)) (requests w).

(** Two pages: a browser with [XMLHttpRequest], and a page in which no
    constructor of the list works. *)
Definition browser : environment :=
  {| has_XMLHttpRequest := true; has_ActiveXObject := λ _, false |}.

Definition bare : environment :=
  {| has_XMLHttpRequest := false; has_ActiveXObject := λ _, false |}.

Definition start : world :=
  {| bus := EventEmitter.create; promises := []; requests := [] |}.

(** A stand-in for [JSON.parse] on the few texts that the examples use;
    like [JSON.parse] it rejects the empty text and text that is not
    JSON. *)
Definition quote_mark : Ascii.ascii := Ascii.ascii_of_nat 34.

Definition quoted (s : string) : string :=
  String quote_mark s +:+ String quote_mark EmptyString.

Definition member_text (key val : string) : string :=
  "{" +:+ quoted key +:+ ":" +:+ quoted val +:+ "}".

Definition parse_sample (text : string) : option value :=
  if decide (text = "null") then Some VNull
  else if decide (text = "{}") then Some (VObject [])
  else if decide (text = member_text "error" "not found")
  then Some (VObject [("error", VString "not found")])
  else if decide (text = member_text "userId" "u1")
  then Some (VObject [("userId", VString "u1")])
  else None.

Definition stringify_sample (v : value) : option string :=
  match v with
  | VUndefined => None
  | _ => Some "{}"
  end.

End Transport.

(** ** class User *)

Module User.

Import Transport.

Record t : Type := User {
  apiUrl : string;
  appPublishableKey : string
}.

Section Api.

Variable array_sort :
  (EventEmitter.registration → EventEmitter.registration → Z) →
  list EventEmitter.registration → list EventEmitter.registration.
Variable code : nat → EventEmitter.behaviour.
Variable JSON_parse : string → option value.
Variable JSON_stringify : value → option string.

(** [this.parent.emit( name )], with the steps granted to the listeners. *)
Definition parent_emit (fuel : nat) (name : string)
    : EventEmitter.t → completion EventEmitter.t unit :=
  EventEmitter.emit array_sort code fuel name.

(** [d => { this.parent.emit( 'signup' ); return d.data.userId; }] *)
Definition signup_transform (fuel : nat) : transform :=
  λ d b,
    match parent_emit fuel "signup" b with
    | Normal b' _ =>
        match get_property d "data" ≫= λ data, get_property data "userId" with
        | Some userId => Normal b' userId
        | None => Thrown b' TypeError
        end
    | Thrown b' e => Thrown b' e
    | OutOfFuel b' => OutOfFuel b'
    end.

(** [d => { this.parent.emit( 'login' ); return d; }] *)
Definition login_transform (fuel : nat) : transform :=
  λ d b,
    match parent_emit fuel "login" b with
    | Normal b' _ => Normal b' d
    | Thrown b' e => Thrown b' e
    | OutOfFuel b' => OutOfFuel b'
    end.

(** [d => { this.parent.emit( 'logout' ); return d; }] *)
Definition logout_transform (fuel : nat) : transform :=
  λ d b,
    match parent_emit fuel "logout" b with
    | Normal b' _ => Normal b' d
    | Thrown b' e => Thrown b' e
    | OutOfFuel b' => OutOfFuel b'
    end.

Definition credentials (u : t) (email password : string) : value :=
  VObject [ ("email", VString email);
            ("password", VString password);
            ("appPublishableKey", VString (appPublishableKey u)) ].

Definition signup (env : environment) (fuel : nat) (u : t)
    (email password : string) : world → world * option nat :=
  post JSON_stringify env (apiUrl u +:+ "users/signup")
    (credentials u email password) (Some (signup_transform fuel)).

Definition login (env : environment) (fuel : nat) (u : t)
    (email password : string) : world → world * option nat :=
  post JSON_stringify env (apiUrl u +:+ "users/login")
    (credentials u email password) (Some (login_transform fuel)).

Definition logout (env : environment) (fuel : nat) (u : t)
    : world → world * option nat :=
  post JSON_stringify env (apiUrl u +:+ "users/logout")
    (VObject []) (Some (logout_transform fuel)).

(** [isLoggedIn]. The executor of [new Promise] calls [get] and chains
    [.then(() => { resolve( true ) }).catch(e => { resolve( false ) })]
    on what [get] returned; on [undefined] that member access throws a
    TypeError inside the executor. The second component gives the state
    of the returned promise in any later world. *)
Definition isLoggedIn (env : environment) (u : t) (w : world)
    : world * (world → settled) :=
  let '(w1, returned) := get env (apiUrl u +:+ "users/data") None w in
  (w1,
   λ w',
     match returned with
     | None => new_Promise [] (Some TypeError) []
     | Some p =>
         let '(calls1, p1) :=
           then_ (promise_state p w')
             (λ _, ([CallResolve (VBool true)], inl VUndefined)) in
         let '(calls2, _) :=
           catch_ p1
             (λ _, ([CallResolve (VBool false)], inl VUndefined)) in
         new_Promise [] None (calls1 ++ calls2)
     end).

(** The three operations that announce their success on the bus. *)
Inductive lifecycle : Type :=
| Signup (email password : string)
| Login (email password : string)
| Logout.

Definition event_name (op : lifecycle) : string :=
  match op with
  | Signup _ _ => "signup"
  | Login _ _ => "login"
  | Logout => "logout"
  end.

Definition transform_of (fuel : nat) (op : lifecycle) : transform :=
  match op with
  | Signup _ _ => signup_transform fuel
  | Login _ _ => login_transform fuel
  | Logout => logout_transform fuel
  end.

Definition perform (env : environment) (fuel : nat) (u : t)
    (op : lifecycle) : world → world * option nat :=
  match op with
  | Signup email password => signup env fuel u email password
  | Login email password => login env fuel u email password
  | Logout => logout env fuel u
  end.

End Api.

(** How many times [emit( name )] has been called on the bus. *)
Definition emissions (name : string) (b : EventEmitter.t) : nat :=
  length (filter (λ ev, ev = EventEmitter.Emitted name) (EventEmitter.trace b)).

Definition api : t :=
  {| apiUrl := "https://api.saaslet.com/"; appPublishableKey := "pk" |}.

End User.

(** ** class User: the operations on the user's data *)

Module UserData.

(** Truthiness of a JS value, as [||] tests it. *)
Definition truthy_value (v : value) : bool :=
  match v with
  | VUndefined | VNull => false
  | VBool b => b
  | VNumber n => negb (bool_decide (n = 0))
  | VString s => negb (bool_decide (s = EmptyString))
  | _ => true
  end.

(** The names that every object inherits from [Object.prototype]; a
    property read with one of them does not give [undefined] on an
    object that lacks it, so the readers below are meant for other
    keys. *)
Definition inherited_names : list string :=
  [ "constructor"; "hasOwnProperty"; "isPrototypeOf";
    "propertyIsEnumerable"; "toLocaleString"; "toString"; "valueOf";
    "__proto__"; "__defineGetter__"; "__defineSetter__";
    "__lookupGetter__"; "__lookupSetter__" ].

Definition own_key (key : string) : Prop := key ∉ inherited_names.

(** [d.data.user], the object that the three readers start from. *)
Definition user_of (d : value) : option value :=
  get_property d "data" ≫= λ data, get_property data "user".

Definition returning (b : EventEmitter.t) (r : option value)
    : completion EventEmitter.t value :=
  match r with
  | Some v => Normal b v
  | None => Thrown b TypeError
  end.

(** [d => { return d.data.user.data[ key ]; }] *)
Definition get_transform (key : string) : Transport.transform :=
  λ d b,
    returning b
      (user_of d ≫= λ user,
       get_property user "data" ≫= λ settings,
       get_property settings key).

(** [d => { return d.data.user.data; }] *)
Definition getAll_transform : Transport.transform :=
  λ d b, returning b (user_of d ≫= λ user, get_property user "data").

(** [d => { return { id: d.data.user.id,
                     email: d.data.user.email.address,
                     subscriptions: d.data.user.subscriptions || [] } }] *)
Definition getInfo_transform : Transport.transform :=
  λ d b,
    returning b
      (user_of d ≫= λ user,
       get_property user "id" ≫= λ id,
       get_property user "email" ≫= λ email,
       get_property email "address" ≫= λ address,
       get_property user "subscriptions" ≫= λ subscriptions,
       Some (VObject
               [ ("id", id);
                 ("email", address);
                 ("subscriptions",
                  if truthy_value subscriptions then subscriptions
                  else VArray []) ])).

(** The operations of [User] that announce nothing on the bus. *)
Inductive query : Type :=
| Set_ (key : string) (v : value)
| Get (key : string)
| GetAll
| GetInfo
| ChangeEmail (email password : string)
| ChangePassword (oldPassword newPassword : string).

Section Api.

Variable JSON_stringify : value → option string.

Definition set (env : Transport.environment) (u : User.t)
    (key : string) (v : value)
    : Transport.world → Transport.world * option nat :=
  Transport.post JSON_stringify env (User.apiUrl u +:+ "users/data")
    (VObject [("data", VObject [(key, v)])]) None.

Definition get (env : Transport.environment) (u : User.t) (key : string)
    : Transport.world → Transport.world * option nat :=
  Transport.get env (User.apiUrl u +:+ "users/data")
    (Some (get_transform key)).

Definition getAll (env : Transport.environment) (u : User.t)
    : Transport.world → Transport.world * option nat :=
  Transport.get env (User.apiUrl u +:+ "users/data") (Some getAll_transform).

Definition getInfo (env : Transport.environment) (u : User.t)
    : Transport.world → Transport.world * option nat :=
  Transport.get env (User.apiUrl u +:+ "users/data") (Some getInfo_transform).

Definition changeEmail (env : Transport.environment) (u : User.t)
    (email password : string)
    : Transport.world → Transport.world * option nat :=
  Transport.post JSON_stringify env (User.apiUrl u +:+ "users/email/change")
    (VObject [("email", VString email); ("password", VString password)])
    None.

Definition changePassword (env : Transport.environment) (u : User.t)
    (oldPassword newPassword : string)
    : Transport.world → Transport.world * option nat :=
  Transport.post JSON_stringify env
    (User.apiUrl u +:+ "users/password/change")
    (VObject [ ("oldPassword", VString oldPassword);
               ("newPassword", VString newPassword) ])
    None.

Definition ask (env : Transport.environment) (u : User.t) (q : query)
    : Transport.world → Transport.world * option nat :=
  match q with
  | Set_ key v => set env u key v
  | Get key => get env u key
  | GetAll => getAll env u
  | GetInfo => getInfo env u
  | ChangeEmail email password => changeEmail env u email password
  | ChangePassword oldPassword newPassword =>
      changePassword env u oldPassword newPassword
  end.

End Api.

(** The three operations that read the user out of the answer. *)
Definition reader (q : query) : Prop :=
  match q with
  | Get _ | GetAll | GetInfo => True
  | _ => False
  end.

(** A transform that does not use the bus. *)
Definition leaves_bus (f : Transport.transform) : Prop :=
  ∀ d b, state_of (f d b) = b.

(** [v] is [undefined] or [null]. *)
Definition nullish (v : value) : Prop := v = VUndefined ∨ v = VNull.

(** A stand-in for [JSON.parse] on one more text: the answer of the data
    endpoint for a user with two settings and no subscriptions. *)
Definition profile_text : string :=
  "{" +:+ Transport.quoted "user" +:+ ":{"
  +:+ Transport.quoted "id" +:+ ":" +:+ Transport.quoted "u1" +:+ ","
  +:+ Transport.quoted "email" +:+ ":"
  +:+ Transport.member_text "address" "a@saaslet.baz" +:+ ","
  +:+ Transport.quoted "data" +:+ ":{"
  +:+ Transport.quoted "key-a" +:+ ":" +:+ Transport.quoted "val-a" +:+ ","
  +:+ Transport.quoted "key-b" +:+ ":" +:+ Transport.quoted "val-b"
  +:+ "}}}".

Definition profile_data : value :=
  VObject
    [ ("user",
       VObject
         [ ("id", VString "u1");
           ("email", VObject [("address", VString "a@saaslet.baz")]);
           ("data",
            VObject [ ("key-a", VString "val-a");
                      ("key-b", VString "val-b") ]) ]) ].

Definition parse_profile (text : string) : option value :=
  if decide (text = profile_text) then Some profile_data
  else Transport.parse_sample text.

End UserData.

(** ** classes Widget and Saaslet (widget registry) *)

Module Widgets.

(** A DOM element, as far as [setSize] reads it. *)
Record element : Type := Element {
  offsetWidth : Z
}.

Record iframe : Type := IFrame {
  src : string;
  width : option Z;
  height : option Z;
  attached : bool
}.

(** A [Widget] object. ([origin] and the message methods towards the
    frame are not read by the operations below and are left out.) *)
Record Widget : Type := MkWidget {
  id : string;
  name : string;
  parentElement : element;
  iFrame : iframe
}.

(** A [Saaslet] instance. [objects] holds every [Widget] object created
    so far, by identity; [activeWidgets] refers to them. [widgetCount]
    is a JS number that only ever takes the values 0, 1, 2, ..., on
    which [++] and the conversion to a string are those of the
    integers. *)
Record Saaslet : Type := MkSaaslet {
  appPublishableKey : string;
  objects : list Widget;
  activeWidgets : gmap string nat;
  widgetCount : N;
  baseUrl : string
}.

Definition create (appPublishableKey : string) : Saaslet :=
  {| appPublishableKey := appPublishableKey;
     objects := [];
     activeWidgets := ∅;
     widgetCount := 0%N;
     baseUrl := "http://devapp.saaslet.com:8080/" |}.

(** The [elementOrSelector] argument. *)
Inductive target : Type :=
| Selector (s : string)
| Node (e : element)
| Falsy.

(** A message event: [msg.origin] and [msg.data], the latter with
    [source], [action], [widgetId] and [data: {width, height}]. *)
Record dimensions : Type := Dimensions {
  d_width : Z;
  d_height : Z
}.

Record payload : Type := Payload {
  source : string;
  action : string;
  widgetId : string;
  data : option dimensions
}.

Record message : Type := Message {
  origin : string;
  msg_data : payload
}.

Definition Not_found : value := VError "Error".

(** [Widget.setSize] *)
Definition setSize (w h : Z) (wd : Widget) : Widget :=
  {| id := id wd; name := name wd; parentElement := parentElement wd;
     iFrame := {| src := src (iFrame wd);
                  width := Some (Z.max (offsetWidth (parentElement wd)) w);
                  height := Some h;
                  attached := attached (iFrame wd) |} |}.

(** [this.iFrame.remove()] *)
Definition detach (wd : Widget) : Widget :=
  {| id := id wd; name := name wd; parentElement := parentElement wd;
     iFrame := {| src := src (iFrame wd); width := width (iFrame wd);
                  height := height (iFrame wd); attached := false |} |}.

Definition update_object (ref : nat) (f : Widget → Widget) (s : Saaslet)
    : Saaslet :=
  {| appPublishableKey := appPublishableKey s;
     objects := alter f ref (objects s);
     activeWidgets := activeWidgets s;
     widgetCount := widgetCount s;
     baseUrl := baseUrl s |}.

(** [_removeWidget]: [delete this.activeWidgets[ id ]] *)
Definition _removeWidget (i : string) (s : Saaslet) : Saaslet :=
  {| appPublishableKey := appPublishableKey s;
     objects := objects s;
     activeWidgets := delete i (activeWidgets s);
     widgetCount := widgetCount s;
     baseUrl := baseUrl s |}.

(** [Widget.destroy], on the widget object [ref]. *)
Definition destroy (ref : nat) (s : Saaslet) : Saaslet :=
  match objects s !! ref with
  | None => s
  | Some wd => _removeWidget (id wd) (update_object ref detach s)
  end.

(** [_onWidgetMessage]. Calling [setSize] on the [undefined] that the
    registry returns for an unknown id throws a TypeError, as does
    reading [width] of a missing [data]. *)
Definition _onWidgetMessage (msg : message) (s : Saaslet)
    : completion Saaslet unit :=
  if negb (bool_decide (source (msg_data msg) = "saaslet-widget"))
  then Normal s tt
  else if bool_decide (action (msg_data msg) = "resize")
  then
    match activeWidgets s !! widgetId (msg_data msg) with
    | None => Thrown s TypeError
    | Some ref =>
        match data (msg_data msg) with
        | None => Thrown s TypeError
        | Some d => Normal (update_object ref (setSize (d_width d) (d_height d)) s) tt
        end
    end
  else Normal s tt.

Section Dom.

(** [document.querySelector] *)
Variable querySelector : string → option element.

Definition _resolveElement (t : target) : option element :=
  match t with
  | Selector s => querySelector s
  | Node e => Some e
  | Falsy => None
  end.

(** [createWidget], up to the point where the promise is returned; the
    result refers to the widget the promise resolves with. *)
Definition createWidget (widgetName : string) (t : target) (s : Saaslet)
    : completion Saaslet nat :=
  match _resolveElement t with
  | None => Thrown s Not_found
  | Some element =>
      let widgetId := "wid_" +:+ pretty (widgetCount s) in
      let url := baseUrl s +:+ "?widgetId=" +:+ widgetId
                 +:+ "&standalone=true&name=" +:+ widgetName
                 +:+ "&appKey=" +:+ appPublishableKey s in
      let widget :=
        {| id := widgetId; name := widgetName; parentElement := element;
           iFrame := {| src := url; width := None; height := None;
                        attached := true |} |} in
      Normal
        {| appPublishableKey := appPublishableKey s;
           objects := objects s ++ [widget];
           activeWidgets := <[widgetId := length (objects s)]> (activeWidgets s);
           widgetCount := (widgetCount s + 1)%N;
           baseUrl := baseUrl s |}
        (length (objects s))
  end.

(** Calls made by the page on one [Saaslet] instance. *)
Inductive operation : Type :=
| Create (widgetName : string) (t : target)
| Destroy (ref : nat).

Definition step (op : operation) (s : Saaslet) : Saaslet :=
  match op with
  | Create widgetName t => state_of (createWidget widgetName t s)
  | Destroy ref => destroy ref s
  end.

Definition run (ops : list operation) (s : Saaslet) : Saaslet :=
  foldl (λ s op, step op s) s ops.

End Dom.

(** The id that goes with a value of the counter. *)
Definition widget_id (counter : N) : string := "wid_" +:+ pretty counter.

(** The ids of all widgets created so far, in the order of creation. *)
Definition assigned_ids (s : Saaslet) : list string := id <$> objects s.

(** The counter is the number of widgets created, and the [k]-th of
    them carries the id made from [k]. *)
Definition sequential (s : Saaslet) : Prop :=
  widgetCount s = N.of_nat (length (objects s))
  ∧ assigned_ids s
    = (λ k, widget_id (N.of_nat k)) <$> seq 0 (length (objects s)).

(** What happens on a page that uses one [Saaslet] instance: the page
    calls [createWidget] or [destroy], or a message arrives. *)
Inductive page_event : Type :=
| Called (op : operation)
| Received (msg : message).

Section Page.

Variable querySelector : string → option element.

Definition react (ev : page_event) (s : Saaslet) : Saaslet :=
  match ev with
  | Called op => step querySelector op s
  | Received msg => state_of (_onWidgetMessage msg s)
  end.

Definition run_page (evs : list page_event) (s : Saaslet) : Saaslet :=
  foldl (λ s ev, react ev s) s evs.

End Page.

(** The registry holds exactly the widgets whose frame is still in the
    document, each under its own id. *)
Definition registry_consistent (s : Saaslet) : Prop :=
  ∀ i ref,
    activeWidgets s !! i = Some ref
    ↔ ∃ wd, objects s !! ref = Some wd ∧ id wd = i
            ∧ attached (iFrame wd) = true.

(** A page with one element, [#app], 300 pixels wide. *)
Definition sample_document (selector : string) : option element :=
  if decide (selector = "#app") then Some {| offsetWidth := 300 |} else None.

End Widgets.

(** * Properties of the event bus *)

Module EventEmitterFacts.

Import EventEmitter.

Local Open Scope nat_scope.

(** The reverse scan of [off] keeps exactly the entries that do not
    match, in their order. *)
Lemma off_scan_take_drop f c i (bucket : list registration) :
  i ≤ length bucket →
  off_scan f c i bucket
  = filter (λ r, ¬ matching f c r) (take i bucket) ++ drop i bucket.
Proof.
  revert bucket. induction i as [|j IH]; intros bucket Hi; [done|].
  destruct (lookup_lt_is_Some_2 bucket j) as [r Hr]; [lia|].
  cbn [off_scan]. rewrite Hr.
  rewrite (take_S_r _ _ _ Hr), filter_app, filter_cons, filter_nil.
  fold (matching f c r).
  destruct (decide (matching f c r)) as [Hm|Hm].
  - rewrite decide_False by tauto.
    rewrite IH by (rewrite length_delete by eauto; lia).
    rewrite app_nil_r, delete_take_drop.
    rewrite take_app_le, drop_app_ge by (rewrite length_take; lia).
    rewrite take_take, Nat.min_id.
    rewrite length_take, Nat.min_l, Nat.sub_diag, drop_0 by lia. done.
  - rewrite decide_True by tauto.
    rewrite IH by lia. rewrite (drop_S _ _ _ Hr), <- app_assoc. done.
Qed.

Lemma off_scan_filter f c (bucket : list registration) :
  off_scan f c (length bucket) bucket
  = filter (λ r, ¬ matching f c r) bucket.
Proof.
  rewrite off_scan_take_drop by lia.
  by rewrite firstn_all, drop_all, app_nil_r.
Qed.

Lemma live_bucket_of r s : live r s ↔ ∃ e, r ∈ bucket_of e s.
Proof.
  unfold live, bucket_of. split.
  - intros (e & b & Hb & Hr). exists e. by rewrite Hb.
  - intros (e & Hr). destruct (listener s !! e) as [b|] eqn:Hb; simpl in Hr.
    + eauto.
    + by apply elem_of_nil in Hr.
Qed.

(** [off] filters the bucket of its event and leaves the others alone. *)
Lemma bucket_of_off e f c s e' :
  bucket_of e' (off e f c s)
  = if decide (e' = e)
    then filter (λ r, ¬ matching f c r) (bucket_of e s)
    else bucket_of e' s.
Proof.
  unfold off, bucket_of.
  destruct (listener s !! e) as [b|] eqn:Hb; simpl.
  - rewrite off_scan_filter.
    destruct (decide (e' = e)) as [->|Hne];
      destruct (decide (length _ = 0)) as [Hlen|Hlen]; simpl.
    + rewrite lookup_delete_eq. simpl.
      by apply nil_length_inv in Hlen.
    + by rewrite lookup_insert_eq.
    + by rewrite lookup_delete_ne.
    + by rewrite lookup_insert_ne.
  - destruct (decide (e' = e)) as [->|Hne]; [|done].
    by rewrite Hb.
Qed.

Lemma allocated_off e f c s : allocated (off e f c s) = allocated s.
Proof. unfold off. by destruct (listener s !! e). Qed.

Lemma trace_off e f c s : trace (off e f c s) = trace s.
Proof. unfold off. by destruct (listener s !! e). Qed.

Lemma live_off r e f c s : live r (off e f c s) → live r s.
Proof.
  rewrite !live_bucket_of. intros [e' Hr]. rewrite bucket_of_off in Hr.
  destruct (decide (e' = e)) as [->|]; [|eauto].
  apply list_elem_of_filter in Hr as [_ Hr]. eauto.
Qed.

Section Engine.

Variable array_sort :
  (registration → registration → Z) → list registration → list registration.
Hypothesis array_sort_perm : ∀ cmp l, array_sort cmp l ≡ₚ l.
Variable code : nat → behaviour.

Abbreviation on := (EventEmitter.on array_sort).
Abbreviation run_call := (EventEmitter.run_call array_sort).
Abbreviation run_body := (EventEmitter.run_body array_sort).
Abbreviation emit_loop := (EventEmitter.emit_loop array_sort code).
Abbreviation emit := (EventEmitter.emit array_sort code).

Lemma bucket_of_on e f c o s e' :
  bucket_of e' (on e f c o s)
  = if decide (e' = e)
    then array_sort compare_order (bucket_of e s ++ [pushed e f c o s])
    else bucket_of e' s.
Proof.
  unfold EventEmitter.on, bucket_of; simpl.
  destruct (decide (e' = e)) as [->|Hne].
  - by rewrite lookup_insert_eq.
  - by rewrite lookup_insert_ne.
Qed.

Lemma live_on r e f c o s :
  live r (on e f c o s) ↔ live r s ∨ r = pushed e f c o s.
Proof.
  rewrite !live_bucket_of. split.
  - intros [e' Hr]. rewrite bucket_of_on in Hr.
    destruct (decide (e' = e)) as [->|]; [|eauto].
    rewrite array_sort_perm in Hr.
    apply elem_of_app in Hr as [Hr|Hr]; [eauto|].
    apply list_elem_of_singleton in Hr. eauto.
  - intros [[e' Hr]| ->].
    + exists e'. rewrite bucket_of_on.
      destruct (decide (e' = e)) as [->|]; [|done].
      rewrite array_sort_perm. apply elem_of_app. eauto.
    + exists e. rewrite bucket_of_on, decide_True by done.
      rewrite array_sort_perm. apply elem_of_app. right.
      by apply list_elem_of_singleton.
Qed.

Lemma allocated_on e f c o s : allocated (on e f c o s) = S (allocated s).
Proof. done. Qed.

Lemma trace_on e f c o s : trace (on e f c o s) = trace s.
Proof. done. Qed.

Lemma trace_run_body cs s : trace (run_body cs s) = trace s.
Proof.
  revert s. induction cs as [|c cs IH]; intros s; [done|].
  unfold EventEmitter.run_body in *. simpl. rewrite IH.
  destruct c; simpl; [done | apply trace_off].
Qed.

(** *** Registrations counted *)

Lemma registered_on e f c o s :
  registered e f c (on e f c o s) = S (registered e f c s).
Proof.
  unfold registered. rewrite bucket_of_on, decide_True by done.
  rewrite array_sort_perm, filter_app, length_app, filter_cons, filter_nil.
  rewrite decide_True by done. simpl. lia.
Qed.

Lemma registered_on_many e f c (orders : list (option Z)) s :
  registered e f c (foldl (λ s o, on e f c o s) s orders)
  = registered e f c s + length orders.
Proof.
  revert s. induction orders as [|o orders IH]; intros s; simpl; [lia|].
  rewrite IH, registered_on. lia.
Qed.

Lemma registered_off e f c s : registered e f c (off e f c s) = 0.
Proof.
  unfold registered. rewrite bucket_of_off, decide_True by done.
  rewrite list_filter_filter. apply length_zero_iff_nil.
  induction (bucket_of e s) as [|r l IH]; [done|].
  rewrite filter_cons. destruct (decide _) as [[? ?]|]; done.
Qed.

(** C8, as the code has it. After the pair [(f, c)] has been registered
    [n] more times for [e] (whatever the orders given), one call of
    [off e f c] removes every registration of that pair, not one: none is
    left. The other entries of the bucket keep their order and the other
    buckets are untouched. *)
Theorem off_removes_every_registration_of_the_pair
    e f c (orders : list (option Z)) s :
  let s' := foldl (λ s o, on e f c o s) s orders in
  registered e f c s' = registered e f c s + length orders
  ∧ registered e f c (off e f c s') = 0
  ∧ bucket_of e (off e f c s')
    = filter (λ r, ¬ matching f c r) (bucket_of e s')
  ∧ ∀ e', e' ≠ e → bucket_of e' (off e f c s') = bucket_of e' s'.
Proof.
  intros s'. split; [apply registered_on_many|].
  split; [apply registered_off|].
  split.
  - by rewrite bucket_of_off, decide_True.
  - intros e' Hne. by rewrite bucket_of_off, decide_False.
Qed.

(** *** Identity of registrations *)

Lemma well_formed_create : well_formed create.
Proof.
  assert (∀ r, ¬ live r create) as Hnone.
  { intros r (e & b & Hb & _). simpl in Hb. by rewrite lookup_empty in Hb. }
  split.
  - intros r Hr. by apply Hnone in Hr.
  - intros r1 r2 Hr. by apply Hnone in Hr.
Qed.

Lemma well_formed_on e f c o s : well_formed s → well_formed (on e f c o s).
Proof.
  intros [Hlt Huniq]. split.
  - intros r [Hr| ->]%live_on; simpl; [apply Hlt in Hr|]; lia.
  - intros r1 r2 [H1| ->]%live_on [H2| ->]%live_on Heq; simpl in *.
    + by apply Huniq.
    + apply Hlt in H1. lia.
    + apply Hlt in H2. lia.
    + done.
Qed.

Lemma well_formed_off e f c s : well_formed s → well_formed (off e f c s).
Proof.
  intros [Hlt Huniq]. split.
  - intros r Hr%live_off. rewrite allocated_off. by apply Hlt.
  - intros r1 r2 H1%live_off H2%live_off. by apply Huniq.
Qed.

Lemma well_formed_run_body cs s : well_formed s → well_formed (run_body cs s).
Proof.
  revert s. unfold EventEmitter.run_body.
  induction cs as [|c cs IH]; intros s Hs; [done|].
  simpl. apply IH. destruct c; simpl;
    [by apply well_formed_on | by apply well_formed_off].
Qed.

Lemma absent_on k e f c o s : absent k s → absent k (on e f c o s).
Proof.
  intros [Hlt Hno]. split; [simpl; lia|].
  intros r [Hr| ->]%live_on; [by apply Hno|]. simpl. lia.
Qed.

Lemma absent_off k e f c s : absent k s → absent k (off e f c s).
Proof.
  intros [Hlt Hno]. split; [by rewrite allocated_off|].
  intros r Hr%live_off. by apply Hno.
Qed.

Lemma absent_run_body k cs s : absent k s → absent k (run_body cs s).
Proof.
  revert s. unfold EventEmitter.run_body.
  induction cs as [|c cs IH]; intros s Hs; [done|].
  simpl. apply IH. destruct c; simpl;
    [by apply absent_on | by apply absent_off].
Qed.

Lemma absent_log k ev s : absent k (log ev s) ↔ absent k s.
Proof. done. Qed.

(** A registration that [off] took out of a well-formed bus is absent
    afterwards. *)
Lemma removed_absent r e f c s :
  well_formed s → live r s → ¬ live r (off e f c s) →
  absent (rid r) (off e f c s).
Proof.
  intros [Hlt Huniq] Hr Hgone. split.
  - rewrite allocated_off. by apply Hlt.
  - intros r' Hr' Heq. apply Hgone.
    by rewrite <- (Huniq r' r (live_off _ _ _ _ _ Hr') Hr Heq).
Qed.

Lemma slot_live e i s r : slot e i s = Some r → live r s.
Proof.
  unfold slot. destruct (listener s !! e) as [b|] eqn:Hb; [|done].
  simpl. intros Hi. exists e, b. split; [done|].
  by eapply list_elem_of_lookup_2.
Qed.

(** *** What an emission invokes *)

(** The loop of [emit] only invokes what it finds in the live bucket: an
    absent object stays absent and is not invoked, however long the loop
    runs and whatever the listeners register or unregister meanwhile. *)
Lemma emit_loop_absent k fuel e i s :
  absent k s →
  (∀ r, invoked r s → rid r ≠ k) →
  absent k (state_of (emit_loop fuel e i s))
  ∧ ∀ r, invoked r (state_of (emit_loop fuel e i s)) → rid r ≠ k.
Proof.
  revert i s. induction fuel as [|fuel IH]; intros i s Habs Hinv; [done|].
  cbn [EventEmitter.emit_loop].
  destruct (slot e i s) as [last|] eqn:Hslot; [|done].
  set (s1 := run_body (body (code (fn last))) (log (Invoked last) s)).
  assert (absent k s1) as Habs1 by by apply absent_run_body.
  assert (∀ r, invoked r s1 → rid r ≠ k) as Hinv1.
  { intros r. unfold invoked, s1. rewrite trace_run_body. simpl.
    intros [Hr|Hr%list_elem_of_singleton]%elem_of_app; [by apply Hinv|].
    injection Hr as ->. apply Habs. by eapply slot_live. }
  destruct (result (code (fn last))); simpl; [done| |done].
  by apply IH.
Qed.

Lemma emit_absent k fuel e s :
  absent k s →
  (∀ r, invoked r s → rid r ≠ k) →
  ∀ r, invoked r (state_of (emit fuel e s)) → rid r ≠ k.
Proof.
  intros Habs Hinv. unfold EventEmitter.emit.
  assert (∀ r, invoked r (log (Emitted e) s) → rid r ≠ k) as Hinv'.
  { intros r. unfold invoked. simpl.
    intros [Hr|Hr%list_elem_of_singleton]%elem_of_app; [by apply Hinv|done]. }
  destruct (listener (log (Emitted e) s) !! e); [|done].
  by apply emit_loop_absent.
Qed.

(** Listeners that leave the bus alone are each invoked in turn and the
    loop ends: one step per remaining entry, and one to see the end. *)
Lemma emit_loop_completes fuel e i s :
  (∀ f, body (code f) = []) →
  length (bucket_of e s) - i < fuel →
  completes (emit_loop fuel e i s).
Proof.
  intros Hquiet. revert i s.
  induction fuel as [|fuel IH]; intros i s Hfuel; [lia|].
  cbn [EventEmitter.emit_loop].
  destruct (slot e i s) as [last|] eqn:Hslot; [|done].
  rewrite Hquiet. cbn [EventEmitter.run_body foldl].
  destruct (result (code (fn last))); [done| |done].
  assert (slot e i (log (Invoked last) s) = Some last) as -> by done.
  rewrite decide_True by done. apply IH.
  assert (i < length (bucket_of e s)); [|unfold bucket_of in *; simpl; lia].
  unfold slot, bucket_of in *.
  destruct (listener s !! e) as [b|]; [|done].
  simpl in *. by eapply lookup_lt_Some.
Qed.

(** C7. Take any sequence of [on] and [off] calls on a new bus in which
    some [off] removes a registration [r] (it is in the bus before that
    call and not after it). Then the emission of any event that follows
    the sequence invokes no registration with the identity of [r]: not
    within any number of steps, whatever the listeners do. *)
Theorem emit_never_invokes_removed
    (before after : list call) e0 f0 c0 (r : registration) fuel e :
  live r (run_body before create) →
  ¬ live r (off e0 f0 c0 (run_body before create)) →
  ∀ r',
    invoked r'
      (state_of
         (emit fuel e (run_body after (off e0 f0 c0 (run_body before create))))) →
    rid r' ≠ rid r.
Proof.
  intros Hlive Hgone. apply emit_absent.
  - apply absent_run_body, removed_absent; [|done..].
    apply well_formed_run_body, well_formed_create.
  - intros r'. unfold invoked.
    rewrite trace_run_body, trace_off, trace_run_body. simpl.
    by intros ?%elem_of_nil.
Qed.

End Engine.

(** *** The reference engine *)

Lemma sink_perm cmp x left : sink cmp x left ≡ₚ x :: left.
Proof.
  induction left as [|y rest IH]; simpl; [done|].
  case_decide; [|done]. rewrite IH. apply perm_swap.
Qed.

Lemma insertion_sort_perm cmp l : insertion_sort cmp l ≡ₚ l.
Proof.
  unfold insertion_sort. rewrite reverse_Permutation.
  assert (∀ placed, foldl (λ placed x, sink cmp x placed) placed l
                    ≡ₚ placed ++ l) as H; [|apply (H [])].
  induction l as [|x l IH]; intros placed; simpl.
  - by rewrite app_nil_r.
  - rewrite IH, sink_perm. simpl. apply Permutation_middle.
Qed.

(** Two registrations of one pair, then one [off]: the claim of one
    removal per call would leave one registration; none is left. *)
Lemma off_leaves_none_of_two :
  let s := on insertion_sort "login" 1 None None
             (on insertion_sort "login" 1 None None create) in
  registered "login" 1 None s = 2
  ∧ registered "login" 1 None (off "login" 1 None s) ≠ 2 - 1.
Proof. vm_compute. split; [reflexivity | discriminate]. Qed.

Lemma off_removes_every_registration_of_the_pair_witness :
  let s' := foldl (λ s o, on insertion_sort "login" 1 None o s) create
              [None; Some 3%Z] in
  registered "login" 1 None s' = 2
  ∧ registered "login" 1 None (off "login" 1 None s') = 0.
Proof.
  intros s'.
  destruct (off_removes_every_registration_of_the_pair
              insertion_sort insertion_sort_perm
              "login" 1 None [None; Some 3%Z] create) as (H1 & H2 & _).
  split; [exact H1 | exact H2].
Defined.

(** Two listeners for [login], the first one removed: the emission
    invokes the second and only it. *)
Example emit_after_off :
  trace (state_of
    (emit insertion_sort quiet 5 "login"
       (off "login" 1 None
          (run_body insertion_sort
             [CallOn "login" 1 None None; CallOn "login" 2 None None]
             create))))
  = [Emitted "login"; Invoked (Registration 1 "login" 2 None None)].
Proof. vm_compute. reflexivity. Qed.

Lemma emit_never_invokes_removed_witness :
  let r := Registration 0 "login" 1 None None in
  let r' := Registration 1 "login" 2 None None in
  let s := run_body insertion_sort
             [CallOn "login" 1 None None; CallOn "login" 2 None None]
             create in
  invoked r'
    (state_of
       (emit insertion_sort quiet 5 "login"
          (run_body insertion_sort [] (off "login" 1 None s))))
  ∧ rid r' ≠ rid r.
Proof.
  intros r r' s.
  assert (invoked r'
    (state_of
       (emit insertion_sort quiet 5 "login"
          (run_body insertion_sort [] (off "login" 1 None s))))) as Hinv.
  { unfold invoked. vm_compute. apply list_elem_of_further, list_elem_of_here. }
  split; [exact Hinv|].
  apply (emit_never_invokes_removed insertion_sort insertion_sort_perm quiet
           [CallOn "login" 1 None None; CallOn "login" 2 None None] []
           "login" 1 None r 5 "login"); [| |exact Hinv].
  - exists "login", [r; r']. split; [vm_compute; reflexivity|].
    apply list_elem_of_here.
  - intros [e He]%live_bucket_of. rewrite bucket_of_off in He.
    destruct (decide (e = "login")) as [->|Hne].
    + vm_compute in He. apply list_elem_of_singleton in He. discriminate.
    + unfold EventEmitter.run_body in He. simpl in He.
      rewrite !bucket_of_on, !decide_False in He by done.
      by apply elem_of_nil in He.
Defined.

End EventEmitterFacts.

(** * Properties of the transport *)

Module TransportFacts.

Import Transport.

Local Open Scope nat_scope.

Section Json.

Variable JSON_parse : string → option value.

Abbreviation sendRequest := (Transport.sendRequest).
Abbreviation get := (Transport.get).
Abbreviation run_handler := (Transport.run_handler JSON_parse).
Abbreviation readystatechange := (Transport.readystatechange JSON_parse).

Lemma promise_state_settle_eq p outcome w :
  promise_state p w = Pending → p < length (promises w) →
  promise_state p (settle p outcome w) = outcome.
Proof.
  unfold promise_state, settle. intros Hp Hlt.
  destruct (lookup_lt_is_Some_2 (promises w) p Hlt) as [st Hst].
  rewrite Hst in Hp |- *. simpl in Hp. subst st. simpl.
  by rewrite list_lookup_insert_eq.
Qed.

Lemma bus_settle p outcome w : bus (settle p outcome w) = bus w.
Proof. unfold settle. by destruct (promises w !! p) as [[]|]. Qed.

Lemma requests_settle p outcome w : requests (settle p outcome w) = requests w.
Proof. unfold settle. by destruct (promises w !! p) as [[]|]. Qed.

(** What [sendRequest] leaves behind when a request object could be
    built: a new pending promise, which it returns, and one more request,
    sent, whose handler holds that promise and the transform. *)
Lemma sendRequest_constructed env url postData transformFn w :
  is_Some (createXMLHTTPObject env) →
  ∃ w1 req,
    sendRequest env url postData transformFn w
      = (w1, Some (length (promises w)))
    ∧ bus w1 = bus w
    ∧ promises w1 = promises w ++ [Pending]
    ∧ requests w1 = requests w ++ [req]
    ∧ onreadystatechange req
      = Some {| h_promise := length (promises w); h_transform := transformFn |}
    ∧ sent req = Some postData ∧ withCredentials req = true.
Proof.
  intros [req0 Hreq]. unfold Transport.sendRequest. rewrite Hreq. simpl.
  eauto 10.
Qed.

Lemma sendRequest_handler env url postData transformFn w w1 p :
  sendRequest env url postData transformFn w = (w1, Some p) →
  p = length (promises w)
  ∧ bus w1 = bus w
  ∧ promise_state p w1 = Pending
  ∧ p < length (promises w1)
  ∧ requests w1 !! length (requests w) ≫= onreadystatechange
    = Some {| h_promise := p; h_transform := transformFn |}.
Proof.
  unfold Transport.sendRequest.
  destruct (createXMLHTTPObject env) as [req0|]; simpl; [|by intros [=]].
  intros [= <- <-]. simpl.
  split; [done|]. split; [done|]. split.
  { unfold promise_state. simpl. by rewrite lookup_app_r, Nat.sub_diag. }
  split; [rewrite length_app; simpl; lia|].
  by rewrite lookup_app_r, Nat.sub_diag.
Qed.

Lemma failure_branch status :
  negb (bool_decide (status = 200%Z)) && negb (bool_decide (status = 304%Z))
  = bool_decide (¬ success status).
Proof.
  unfold success.
  repeat case_bool_decide; simpl; try done; tauto.
Qed.

(** C1, as the code has it. A request that [sendRequest] has issued,
    returning promise [p], completes with [status] and the body
    [responseText]. When the body parses to [data], the envelope is the
    object [{status: status, data: data}]: on 200 or 304 the handler
    resolves [p], with the envelope when no transform was given and with
    what the transform returns for the envelope when one was given and
    returns; on every other status it rejects [p] with the envelope
    itself and the bus is as it was before the call, so the transform
    has not run. When the body does not parse, the handler throws the
    SyntaxError before it looks at the status: whatever the status, [p]
    is neither rejected nor resolved. *)
Theorem completed_request_settles_by_status
    env url postData transformFn w w1 p status responseText :
  sendRequest env url postData transformFn w = (w1, Some p) →
  let fired :=
    readystatechange (length (requests w)) 4 status responseText w1 in
  (∀ data,
     JSON_parse responseText = Some data →
     let responseData :=
       VObject [("status", VNumber status); ("data", data)] in
     (success status → transformFn = None →
        fired = Normal (resolve p responseData w1) tt
        ∧ promise_state p (state_of fired) = Resolved responseData)
     ∧ (success status → ∀ f b v,
          transformFn = Some f → f responseData (bus w1) = Normal b v →
          fired = Normal (resolve p v (with_bus b w1)) tt
          ∧ promise_state p (state_of fired) = Resolved v)
     ∧ (¬ success status →
          fired = Normal (reject p responseData w1) tt
          ∧ promise_state p (state_of fired) = Rejected responseData
          ∧ bus (state_of fired) = bus w))
  ∧ (JSON_parse responseText = None →
       fired = Thrown w1 SyntaxError
       ∧ promise_state p (state_of fired) = Pending).
Proof.
  intros Hsend fired.
  apply sendRequest_handler in Hsend as (-> & Hbus & Hpending & Hlt & Hh).
  unfold fired, Transport.readystatechange. rewrite Hh.
  unfold Transport.run_handler. simpl. split.
  - intros data Hparse. cbv zeta.
    rewrite Hparse, failure_branch. unfold envelope.
    split; [|split].
    + intros Hok ->. rewrite bool_decide_false by tauto. split; [done|].
      by apply promise_state_settle_eq.
    + intros Hok f b v -> Hf. rewrite bool_decide_false by tauto.
      rewrite Hf. split; [done|].
      by apply promise_state_settle_eq.
    + intros Hko. rewrite bool_decide_true by done. split; [done|].
      split; [by apply promise_state_settle_eq|].
      simpl. unfold reject. by rewrite bus_settle.
  - intros ->. done.
Qed.

(** C4, as the code has it. When the processing of a 200 or 304 response
    throws, because the body does not parse or because the transform
    throws, the error leaves the handler towards the browser that called
    it, and the promise is not rejected: it is still pending. *)
Theorem throwing_completion_leaves_promise_pending
    env url postData transformFn w w1 p status responseText :
  sendRequest env url postData transformFn w = (w1, Some p) →
  success status →
  let k := length (requests w) in
  (JSON_parse responseText = None →
     readystatechange k 4 status responseText w1 = Thrown w1 SyntaxError
     ∧ promise_state p w1 = Pending)
  ∧ (∀ data f b e,
       JSON_parse responseText = Some data →
       transformFn = Some f →
       f (envelope status data) (bus w1) = Thrown b e →
       readystatechange k 4 status responseText w1
         = Thrown (with_bus b w1) e
       ∧ promise_state p (with_bus b w1) = Pending).
Proof.
  intros Hsend Hok k.
  apply sendRequest_handler in Hsend as (-> & Hbus & Hpending & Hlt & Hh).
  unfold Transport.readystatechange, k. rewrite Hh.
  unfold Transport.run_handler. simpl. split.
  - intros ->. done.
  - intros data f b e -> -> Hf. rewrite failure_branch.
    rewrite bool_decide_false by tauto. by rewrite Hf.
Qed.

Lemma no_constructor env :
  createXMLHTTPObject env = None
  ↔ has_XMLHttpRequest env = false
    ∧ ∀ progid,
        progid ∈ [ "Msxml3.XMLHTTP"; "Msxml2.XMLHTTP.6.0";
                   "Msxml2.XMLHTTP.3.0"; "Msxml2.XMLHTTP";
                   "Microsoft.XMLHTTP" ] →
        has_ActiveXObject env progid = false.
Proof.
  unfold createXMLHTTPObject, XMLHttpFactories. cbn [first_factory].
  unfold new_XMLHttpRequest, new_ActiveXObject. split.
  - intros H.
    destruct (has_XMLHttpRequest env); [done|].
    destruct (has_ActiveXObject env "Msxml3.XMLHTTP") eqn:H1; [done|].
    destruct (has_ActiveXObject env "Msxml2.XMLHTTP.6.0") eqn:H2; [done|].
    destruct (has_ActiveXObject env "Msxml2.XMLHTTP.3.0") eqn:H3; [done|].
    destruct (has_ActiveXObject env "Msxml2.XMLHTTP") eqn:H4; [done|].
    destruct (has_ActiveXObject env "Microsoft.XMLHTTP") eqn:H5; [done|].
    split; [done|]. intros progid Hin.
    repeat (apply elem_of_cons in Hin as [->|Hin]; [done|]).
    by apply elem_of_nil in Hin.
  - intros [-> H].
    rewrite !H; [done|..];
      repeat first [apply list_elem_of_here | apply list_elem_of_further].
Qed.

(** C5, the code at the failing input. With no usable constructor
    [sendRequest], and so [get] and [post], reject the promise they made
    but return [undefined], not that promise; nothing is sent. *)
Theorem no_constructor_returns_undefined
    (JSON_stringify : value → option string)
    env url data postData transformFn w :
  createXMLHTTPObject env = None →
  let rejected :=
    reject (length (promises w)) (VString "Could not create XMLHTTPObject")
      (getPromise w).1 in
  sendRequest env url postData transformFn w = (rejected, None)
  ∧ get env url transformFn w = (rejected, None)
  ∧ post JSON_stringify env url data transformFn w = (rejected, None)
  ∧ promise_state (length (promises w)) rejected
    = Rejected (VString "Could not create XMLHTTPObject")
  ∧ requests rejected = requests w.
Proof.
  intros Hnone rejected.
  unfold Transport.post, Transport.get, Transport.sendRequest.
  rewrite Hnone. simpl. repeat split.
  - unfold rejected, reject. apply promise_state_settle_eq.
    + unfold promise_state. simpl. by rewrite lookup_app_r, Nat.sub_diag.
    + simpl. rewrite length_app. simpl. lia.
  - unfold rejected, reject. by rewrite requests_settle.
Qed.

End Json.

(** A GET that the server answers with 404 and an error object. *)
Lemma completed_request_settles_by_status_witness :
  let w1 := (get browser "https://api.saaslet.com/users/data" None start).1 in
  let responseData :=
    VObject [ ("status", VNumber 404);
              ("data", VObject [("error", VString "not found")]) ] in
  readystatechange parse_sample 0 4 404 (member_text "error" "not found") w1
    = Normal (reject 0 responseData w1) tt
  ∧ promise_state 0
      (state_of
         (readystatechange parse_sample 0 4 404
            (member_text "error" "not found") w1))
    = Rejected responseData.
Proof.
  intros w1 responseData.
  destruct (completed_request_settles_by_status parse_sample
              browser "https://api.saaslet.com/users/data" None None start
              w1 0 404 (member_text "error" "not found") eq_refl)
    as [H _].
  destruct (H (VObject [("error", VString "not found")]) eq_refl)
    as (_ & _ & H3).
  destruct H3 as (H1 & H2 & _); [|by split].
  intros [H4|H4]; discriminate H4.
Defined.

(** A server error with an HTML page as its body, and a request that
    failed on the network (status 0, empty body): the claim has the
    promise rejected with the envelope; the handler throws on the body
    and the promise is left pending.  *)
Lemma failure_with_unparsable_body_is_not_rejected :
  let w1 := (get browser "https://api.saaslet.com/users/data" None start).1 in
  (get browser "https://api.saaslet.com/users/data" None start).2 = Some 0
  ∧ readystatechange parse_sample 0 4 500 "<html>" w1 = Thrown w1 SyntaxError
  ∧ ¬ is_settled
        (promise_state 0
           (state_of (readystatechange parse_sample 0 4 500 "<html>" w1)))
  ∧ readystatechange parse_sample 0 4 0 EmptyString w1
    = Thrown w1 SyntaxError
  ∧ ¬ is_settled
        (promise_state 0
           (state_of (readystatechange parse_sample 0 4 0 EmptyString w1))).
Proof.
  vm_compute. repeat split; tauto.
Qed.

(** The same GET answered with 200: resolved with the envelope. *)
Example completed_request_resolves :
  let w1 := (get browser "https://api.saaslet.com/users/data" None start).1 in
  promise_state 0
    (state_of (readystatechange parse_sample 0 4 200 "{}" w1))
  = Resolved (envelope 200 (VObject [])).
Proof. vm_compute. reflexivity. Qed.

(** Earlier ready states leave the promise alone. *)
Example incomplete_request_pending :
  let w1 := (get browser "https://api.saaslet.com/users/data" None start).1 in
  readystatechange parse_sample 0 3 200 "{}" w1 = Normal w1 tt.
Proof. vm_compute. reflexivity. Qed.

(** A 200 response whose body is not JSON, and a 200 response whose
    transform throws: the claim has the promise rejected with the error;
    it is neither rejected nor resolved. *)
Lemma throwing_completion_does_not_reject :
  let failing : transform := λ _ b, Thrown b TypeError in
  let w1 := (get browser "https://api.saaslet.com/users/data" None start).1 in
  let w2 :=
    (get browser "https://api.saaslet.com/users/data" (Some failing) start).1 in
  (get browser "https://api.saaslet.com/users/data" None start).2 = Some 0
  ∧ readystatechange parse_sample 0 4 200 "<html>" w1 = Thrown w1 SyntaxError
  ∧ ¬ is_settled (promise_state 0 w1)
  ∧ readystatechange parse_sample 0 4 200 "{}" w2 = Thrown w2 TypeError
  ∧ ¬ is_settled (promise_state 0 w2).
Proof.
  vm_compute. repeat split; tauto.
Qed.

Lemma throwing_completion_leaves_promise_pending_witness :
  let w1 := (get browser "https://api.saaslet.com/users/data" None start).1 in
  readystatechange parse_sample 0 4 200 "<html>" w1 = Thrown w1 SyntaxError
  ∧ promise_state 0 w1 = Pending.
Proof.
  intros w1.
  destruct (throwing_completion_leaves_promise_pending parse_sample
              browser "https://api.saaslet.com/users/data" None None start
              w1 0 200 "<html>" eq_refl (or_introl eq_refl)) as [H _].
  exact (H eq_refl).
Defined.

Lemma no_constructor_returns_undefined_witness :
  get bare "https://api.saaslet.com/users/data" None start
  = ({| bus := EventEmitter.create;
        promises := [Rejected (VString "Could not create XMLHTTPObject")];
        requests := [] |}, None).
Proof.
  destruct (no_constructor_returns_undefined stringify_sample
              bare "https://api.saaslet.com/users/data" VNull None None start
              eq_refl) as (_ & H & _).
  exact H.
Defined.

End TransportFacts.

(** * Properties of the account client *)

Module UserFacts.

Import Transport User.

Local Open Scope nat_scope.

Section Api.

Variable array_sort :
  (EventEmitter.registration → EventEmitter.registration → Z) →
  list EventEmitter.registration → list EventEmitter.registration.
Variable code : nat → EventEmitter.behaviour.
Variable JSON_parse : string → option value.
Variable JSON_stringify : value → option string.

Abbreviation emit := (EventEmitter.emit array_sort code).
Abbreviation emit_loop := (EventEmitter.emit_loop array_sort code).
Abbreviation perform := (User.perform array_sort code JSON_stringify).
Abbreviation readystatechange := (Transport.readystatechange JSON_parse).

Lemma emissions_log_invoked name r b :
  emissions name (EventEmitter.log (EventEmitter.Invoked r) b)
  = emissions name b.
Proof.
  unfold emissions. simpl. rewrite filter_app, length_app, filter_cons.
  rewrite decide_False by done. simpl. lia.
Qed.

Lemma emissions_log_emitted name e b :
  emissions name (EventEmitter.log (EventEmitter.Emitted e) b)
  = emissions name b + (if decide (e = name) then 1 else 0).
Proof.
  unfold emissions. simpl. rewrite filter_app, length_app, filter_cons.
  destruct (decide (e = name)) as [->|Hne].
  - by rewrite decide_True.
  - rewrite decide_False by congruence. done.
Qed.

Lemma emissions_run_body name cs b :
  emissions name (EventEmitter.run_body array_sort cs b) = emissions name b.
Proof.
  unfold emissions.
  by rewrite (EventEmitterFacts.trace_run_body array_sort).
Qed.

(** The listeners do not emit: the loop adds invocations only. *)
Lemma emissions_emit_loop name fuel e i b :
  emissions name (state_of (emit_loop fuel e i b)) = emissions name b.
Proof.
  revert i b. induction fuel as [|fuel IH]; intros i b; [done|].
  cbn [EventEmitter.emit_loop].
  destruct (EventEmitter.slot e i b) as [last|]; [|done].
  destruct (EventEmitter.result (code (EventEmitter.fn last))); simpl;
    rewrite ?IH, emissions_run_body, emissions_log_invoked; done.
Qed.

Lemma emissions_emit name fuel e b :
  emissions name (state_of (emit fuel e b))
  = emissions name b + (if decide (e = name) then 1 else 0).
Proof.
  unfold EventEmitter.emit.
  destruct (EventEmitter.listener _ !! e).
  - by rewrite emissions_emit_loop, emissions_log_emitted.
  - simpl. by rewrite emissions_log_emitted.
Qed.

Abbreviation transform_of := (User.transform_of array_sort code).

(** Each of the three transforms calls [emit] once, first, for the
    event of its operation, and for no other event. *)
Lemma transform_of_emits_once name fuel op d b :
  emissions name (state_of (transform_of fuel op d b))
  = emissions name b + (if decide (event_name op = name) then 1 else 0).
Proof.
  pose proof (emissions_emit name fuel (event_name op) b) as H.
  destruct op; simpl in *;
    unfold signup_transform, login_transform, logout_transform, parent_emit;
    destruct (EventEmitter.emit _ _ _ _ _) as [b' []|b' err|b']; simpl in *;
    try done.
  by destruct (get_property d "data" ≫= _).
Qed.

Lemma perform_is_post env fuel u op w :
  ∃ url data,
    perform env fuel u op w
    = sendRequest env url (JSON_stringify data) (Some (transform_of fuel op)) w.
Proof. destruct op; simpl; eauto. Qed.

Lemma bus_sendRequest env url postData transformFn w :
  bus (sendRequest env url postData transformFn w).1 = bus w.
Proof.
  unfold sendRequest. destruct (createXMLHTTPObject env); simpl; [done|].
  unfold reject. by rewrite TransportFacts.bus_settle.
Qed.


End Api.

(** The scenario of the test suite: a listener counts [login] events; a
    login that the server accepts fires it once, a later login that the
    server refuses with 404 does not fire it. *)
Example login_then_failed_login :
  let listening :=
    with_bus (EventEmitter.on EventEmitter.insertion_sort "login" 7 None None
                EventEmitter.create) start in
  let login :=
    User.login EventEmitter.insertion_sort EventEmitter.quiet
      stringify_sample browser 5 api in
  let w1 := (login "a@saaslet.baz" "password-a" listening).1 in
  let w2 := state_of (Transport.readystatechange parse_sample 0 4 200 "{}" w1) in
  let w3 := (login "a@saaslet.baz" "wrong" w2).1 in
  let w4 :=
    state_of (Transport.readystatechange parse_sample 1 4 404
                (member_text "error" "not found") w3) in
  promise_state 0 w2 = Resolved (envelope 200 (VObject []))
  ∧ EventEmitter.trace (bus w2)
    = [ EventEmitter.Emitted "login";
        EventEmitter.Invoked
          (EventEmitter.Registration 0 "login" 7 None None) ]
  ∧ promise_state 1 w4
    = Rejected (envelope 404 (VObject [("error", VString "not found")]))
  ∧ EventEmitter.trace (bus w4) = EventEmitter.trace (bus w2).
Proof. vm_compute. repeat split; reflexivity. Qed.


(** *** isLoggedIn *)

(** With a request object, [isLoggedIn] follows the promise of its GET:
    resolved gives [true], rejected gives [false], and it is never
    rejected itself. *)
Lemma isLoggedIn_follows_get env u w :
  is_Some (createXMLHTTPObject env) →
  ∀ w',
    (isLoggedIn env u w).2 w'
    = match promise_state (length (promises w)) w' with
      | Pending => Pending
      | Resolved _ => Resolved (VBool true)
      | Rejected _ => Resolved (VBool false)
      end.
Proof.
  intros Hreq w'. unfold isLoggedIn, get.
  destruct (TransportFacts.sendRequest_constructed env
              (apiUrl u +:+ "users/data") None None w Hreq)
    as (w1 & req & -> & _).
  simpl. by destruct (promise_state _ w').
Qed.

(** C2, the code at the failing input. Without a usable constructor
    [get] returns [undefined]; chaining [.then] on it throws inside the
    executor of [new Promise], and the promise that [isLoggedIn] returns
    is rejected with that TypeError, in every later world. *)
Theorem isLoggedIn_rejects_without_constructor env u w :
  createXMLHTTPObject env = None →
  ∀ w', (isLoggedIn env u w).2 w' = Rejected TypeError.
Proof.
  intros Hnone w'. unfold isLoggedIn, get, sendRequest.
  by rewrite Hnone.
Qed.

Lemma isLoggedIn_rejects_without_constructor_witness :
  (isLoggedIn bare api start).2 (isLoggedIn bare api start).1
  = Rejected TypeError.
Proof.
  exact (isLoggedIn_rejects_without_constructor bare api start eq_refl
           (isLoggedIn bare api start).1).
Defined.

(** The two answers of the test suite: a session gives [true], "no
    session found" gives [false]. *)
Example isLoggedIn_true_and_false :
  let '(w1, loggedIn) := isLoggedIn browser api start in
  loggedIn (state_of (Transport.readystatechange parse_sample 0 4 200 "{}" w1))
  = Resolved (VBool true)
  ∧ loggedIn
      (state_of (Transport.readystatechange parse_sample 0 4 404
                   (member_text "error" "not found") w1))
    = Resolved (VBool false)
  ∧ loggedIn w1 = Pending.
Proof. vm_compute. repeat split; reflexivity. Qed.

End UserFacts.

(** * Properties of the widget registry *)

Module WidgetsFacts.

Import Widgets.

Local Open Scope nat_scope.

Lemma widget_id_inj : Inj (=) (=) widget_id.
Proof.
  intros m n H. unfold widget_id in H.
  apply (inj (String.app "wid_")) in H. by apply (inj pretty) in H.
Qed.

Lemma objects_update_object ref f s :
  objects (update_object ref f s) = alter f ref (objects s).
Proof. done. Qed.

Lemma assigned_ids_update_object ref f s :
  (∀ wd, id (f wd) = id wd) →
  assigned_ids (update_object ref f s) = assigned_ids s.
Proof.
  intros Hf. unfold assigned_ids. simpl.
  apply list_eq. intros k. rewrite !list_lookup_fmap.
  destruct (decide (ref = k)) as [->|Hne].
  - rewrite list_lookup_alter_eq. destruct (objects s !! k); simpl; [|done].
    by rewrite Hf.
  - by rewrite list_lookup_alter_ne.
Qed.

Lemma assigned_ids_destroy ref s :
  assigned_ids (destroy ref s) = assigned_ids s.
Proof.
  unfold destroy. destruct (objects s !! ref) as [wd|]; [|done].
  unfold _removeWidget, assigned_ids. simpl.
  by apply (assigned_ids_update_object ref detach s).
Qed.

Lemma widgetCount_destroy ref s : widgetCount (destroy ref s) = widgetCount s.
Proof. unfold destroy. by destruct (objects s !! ref). Qed.

Section Dom.

Variable querySelector : string → option element.

Abbreviation createWidget := (Widgets.createWidget querySelector).
Abbreviation step := (Widgets.step querySelector).
Abbreviation run := (Widgets.run querySelector).

Lemma sequential_create key : sequential (create key).
Proof. done. Qed.

Lemma sequential_createWidget widgetName t s :
  sequential s → sequential (state_of (createWidget widgetName t s)).
Proof.
  intros [Hcount Hids]. unfold Widgets.createWidget.
  destruct (_resolveElement querySelector t) as [element|]; [|done].
  split; simpl.
  - rewrite length_app. simpl. lia.
  - unfold assigned_ids in *. simpl.
    rewrite fmap_app, length_app, seq_app, fmap_app, <- Hids. simpl.
    by rewrite Hcount.
Qed.

Lemma sequential_destroy ref s : sequential s → sequential (destroy ref s).
Proof.
  intros [Hcount Hids]. unfold sequential.
  rewrite widgetCount_destroy, assigned_ids_destroy.
  assert (length (objects (destroy ref s)) = length (objects s)) as ->; [|done].
  unfold destroy. destruct (objects s !! ref); [|done].
  simpl. apply length_alter.
Qed.

Lemma sequential_run ops s : sequential s → sequential (run ops s).
Proof.
  revert s. unfold Widgets.run.
  induction ops as [|op ops IH]; intros s Hs; [done|].
  simpl. apply IH. destruct op; simpl;
    [by apply sequential_createWidget | by apply sequential_destroy].
Qed.

Lemma sequential_NoDup s : sequential s → NoDup (assigned_ids s).
Proof.
  intros [_ ->]. apply NoDup_fmap_2; [|apply NoDup_seq].
  intros j k H. by apply widget_id_inj, Nat2N.inj in H.
Qed.

Lemma sequential_unused s :
  sequential s → widget_id (widgetCount s) ∉ assigned_ids s.
Proof.
  intros [-> ->] (k & Hk & Hin)%list_elem_of_fmap.
  apply widget_id_inj, Nat2N.inj in Hk. subst k.
  apply elem_of_seq in Hin. lia.
Qed.

(** C9. After any sequence of [createWidget] and [destroy] calls on a
    new [Saaslet] instance: the [k]-th widget created has the id
    [wid_k]; no two widgets created, destroyed or not, share an id; and
    the next [createWidget] that succeeds hands out the id of the
    current counter, which no widget has had, and leaves a larger
    counter. *)
Theorem widget_ids_unique_and_monotonic key ops :
  let s := run ops (create key) in
  (∀ k wd, objects s !! k = Some wd → id wd = widget_id (N.of_nat k))
  ∧ NoDup (assigned_ids s)
  ∧ ∀ widgetName t s' ref,
      createWidget widgetName t s = Normal s' ref →
      id <$> (objects s' !! ref) = Some (widget_id (widgetCount s))
      ∧ (widget_id (widgetCount s) ∉ assigned_ids s)
      ∧ (widgetCount s < widgetCount s')%N.
Proof.
  intros s.
  assert (sequential s) as Hseq by apply sequential_run, sequential_create.
  split; [|split].
  - intros k wd Hk. destruct Hseq as [_ Hids].
    assert (assigned_ids s !! k = Some (id wd)) as Hid
      by (unfold assigned_ids; by rewrite list_lookup_fmap, Hk).
    rewrite Hids, list_lookup_fmap in Hid.
    apply lookup_lt_Some in Hk.
    rewrite lookup_seq_lt in Hid by done. simpl in Hid. congruence.
  - by apply sequential_NoDup.
  - intros widgetName t s' ref. unfold Widgets.createWidget.
    destruct (_resolveElement querySelector t) as [element|]; [|done].
    intros [= <- <-]. simpl. split; [|split].
    + by rewrite lookup_app_r, Nat.sub_diag.
    + by apply sequential_unused.
    + lia.
Qed.

End Dom.

(** *** Inbound messages *)

(** C10. The handler reads [msg.data] only: two messages with the same
    payload and any two origins give the same outcome. For a payload
    tagged [saaslet-widget] with action [resize], the id of a registered
    widget and dimensions, that outcome is the [setSize] on that widget,
    whatever the origin. *)
Theorem resize_ignores_origin (m1 m2 : message) ref d s :
  msg_data m1 = msg_data m2 →
  source (msg_data m1) = "saaslet-widget" →
  action (msg_data m1) = "resize" →
  activeWidgets s !! widgetId (msg_data m1) = Some ref →
  data (msg_data m1) = Some d →
  _onWidgetMessage m1 s
    = Normal (update_object ref (setSize (d_width d) (d_height d)) s) tt
  ∧ _onWidgetMessage m2 s = _onWidgetMessage m1 s.
Proof.
  intros Hsame Hsource Haction Hreg Hdata. unfold _onWidgetMessage.
  rewrite <- Hsame, Hsource, Haction, Hreg, Hdata. done.
Qed.

(** The payload alone decides, for every message. *)
Lemma onWidgetMessage_payload_only (m1 m2 : message) s :
  msg_data m1 = msg_data m2 → _onWidgetMessage m1 s = _onWidgetMessage m2 s.
Proof. intros H. unfold _onWidgetMessage. by rewrite H. Qed.

(** C3, as the code has it. For a resize message that names a destroyed
    widget the registry has no entry, the call of [setSize] on
    [undefined] throws a TypeError out of the handler, and the state is
    unchanged: no [setSize] is performed. *)
Theorem resize_for_destroyed_widget_throws (msg : message) ref wd s :
  objects s !! ref = Some wd →
  source (msg_data msg) = "saaslet-widget" →
  action (msg_data msg) = "resize" →
  widgetId (msg_data msg) = id wd →
  _onWidgetMessage msg (destroy ref s) = Thrown (destroy ref s) TypeError.
Proof.
  intros Hobj Hsource Haction Hid. unfold _onWidgetMessage.
  rewrite Hsource, Haction, Hid. simpl.
  unfold destroy at 1. rewrite Hobj. simpl.
  by rewrite lookup_delete_eq.
Qed.

(** Three widgets, the first destroyed before the third is created. *)
Example ids_after_destroy :
  assigned_ids
    (run sample_document
       [ Create "login-signup" (Selector "#app");
         Create "payment" (Selector "#app");
         Destroy 0;
         Create "login-signup" (Selector "#app");
         Create "login-signup" (Selector "#missing") ]
       (create "pk"))
  = ["wid_0"; "wid_1"; "wid_2"].
Proof. vm_compute. reflexivity. Qed.

Lemma widget_ids_unique_and_monotonic_witness :
  let s := run sample_document
             [ Create "login-signup" (Selector "#app"); Destroy 0 ]
             (create "pk") in
  (widget_id (widgetCount s) ∉ assigned_ids s)
  ∧ assigned_ids s = ["wid_0"]
  ∧ widget_id (widgetCount s) = "wid_1".
Proof.
  intros s.
  destruct (widget_ids_unique_and_monotonic sample_document "pk"
              [ Create "login-signup" (Selector "#app"); Destroy 0 ])
    as (_ & _ & H).
  destruct (H "payment" (Selector "#app") _ _ eq_refl) as (_ & Hnew & _).
  split; [exact Hnew|]. vm_compute. by split.
Defined.

Lemma resize_ignores_origin_witness :
  let s := run sample_document [Create "login-signup" (Selector "#app")]
             (create "pk") in
  let p := {| source := "saaslet-widget"; action := "resize";
              widgetId := "wid_0";
              data := Some {| d_width := 200; d_height := 150 |} |} in
  _onWidgetMessage (Message "https://evil.example" p) s
  = _onWidgetMessage (Message "http://devapp.saaslet.com:8080" p) s
  ∧ (iFrame <$> objects
       (state_of (_onWidgetMessage (Message "https://evil.example" p) s)) !! 0)
    = Some {| src := "http://devapp.saaslet.com:8080/?widgetId=wid_0&standalone=true&name=login-signup&appKey=pk";
              width := Some 300%Z; height := Some 150%Z; attached := true |}.
Proof.
  intros s p.
  destruct (resize_ignores_origin
              (Message "http://devapp.saaslet.com:8080" p)
              (Message "https://evil.example" p)
              0 {| d_width := 200; d_height := 150 |} s
              eq_refl eq_refl eq_refl eq_refl eq_refl) as [H1 H2].
  split; [exact H2|]. rewrite H2, H1. vm_compute. reflexivity.
Defined.

(** A widget is created and destroyed; then a resize message for its id
    arrives. The handler does not return: it throws. *)
Lemma resize_for_destroyed_widget_does_not_return :
  let s := run sample_document
             [ Create "login-signup" (Selector "#app"); Destroy 0 ]
             (create "pk") in
  let msg := Message "http://devapp.saaslet.com:8080"
               {| source := "saaslet-widget"; action := "resize";
                  widgetId := "wid_0";
                  data := Some {| d_width := 200; d_height := 150 |} |} in
  assigned_ids s = ["wid_0"]
  ∧ ¬ returns_normally (_onWidgetMessage msg s).
Proof. vm_compute. split; [reflexivity | tauto]. Qed.

Lemma resize_for_destroyed_widget_throws_witness :
  let s := run sample_document [Create "login-signup" (Selector "#app")]
             (create "pk") in
  let msg := Message "http://devapp.saaslet.com:8080"
               {| source := "saaslet-widget"; action := "resize";
                  widgetId := "wid_0";
                  data := Some {| d_width := 200; d_height := 150 |} |} in
  _onWidgetMessage msg (destroy 0 s) = Thrown (destroy 0 s) TypeError.
Proof.
  intros s msg.
  destruct (objects s !! 0) as [wd|] eqn:Hwd; [|by vm_compute in Hwd].
  apply (resize_for_destroyed_widget_throws msg 0 wd s Hwd eq_refl eq_refl).
  vm_compute in Hwd. by injection Hwd as <-.
Defined.

End WidgetsFacts.

(** * Further properties of the event bus *)

Module EventEmitterMore.

Import EventEmitter.

Local Open Scope nat_scope.

Lemma slot_bucket_of e i s : slot e i s = bucket_of e s !! i.
Proof. unfold slot, bucket_of. by destruct (listener s !! e). Qed.

Lemma bucket_of_log ev e s : bucket_of e (log ev s) = bucket_of e s.
Proof. done. Qed.

Lemma listener_off_lookup e f c s e' :
  listener (off e f c s) !! e'
  = if decide (e' = e)
    then match filter (λ r, ¬ matching f c r) (bucket_of e s) with
         | [] => None
         | b => Some b
         end
    else listener s !! e'.
Proof.
  unfold off, bucket_of.
  destruct (listener s !! e) as [b|] eqn:Hb; simpl.
  - rewrite EventEmitterFacts.off_scan_filter.
    destruct (decide (e' = e)) as [->|Hne];
      destruct (decide (length _ = 0)) as [Hlen|Hlen]; simpl.
    + rewrite lookup_delete_eq. by apply nil_length_inv in Hlen as ->.
    + rewrite lookup_insert_eq.
      by destruct (filter _ b).
    + by rewrite lookup_delete_ne.
    + by rewrite lookup_insert_ne.
  - destruct (decide (e' = e)) as [->|Hne]; by rewrite ?Hb.
Qed.

Section Engine.

Variable array_sort :
  (registration → registration → Z) → list registration → list registration.
Hypothesis array_sort_perm : ∀ cmp l, array_sort cmp l ≡ₚ l.
Variable code : nat → behaviour.

Abbreviation on := (EventEmitter.on array_sort).
Abbreviation run_call := (EventEmitter.run_call array_sort).
Abbreviation run_body := (EventEmitter.run_body array_sort).
Abbreviation emit_loop := (EventEmitter.emit_loop array_sort code).
Abbreviation emit := (EventEmitter.emit array_sort code).
Abbreviation act := (EventEmitter.act array_sort code).
Abbreviation run_actions := (EventEmitter.run_actions array_sort code).

(** *** Invariants of the bus *)

(** A property of the arrays of the bus that [on] and [off] keep is kept
    by everything the page can do, emissions included. *)
Lemma listener_log ev s : listener (log ev s) = listener s.
Proof. done. Qed.

Section Invariant.

Variable P : t → Prop.
Hypothesis P_log : ∀ ev s, P s → P (log ev s).
Hypothesis P_on : ∀ e f c o s, P s → P (on e f c o s).
Hypothesis P_off : ∀ e f c s, P s → P (off e f c s).

Lemma invariant_run_body cs s : P s → P (run_body cs s).
Proof.
  revert s. unfold EventEmitter.run_body.
  induction cs as [|c cs IH]; intros s Hs; [done|].
  simpl. apply IH. destruct c; simpl; auto.
Qed.

Lemma invariant_emit_loop fuel e i s : P s → P (state_of (emit_loop fuel e i s)).
Proof.
  revert i s. induction fuel as [|fuel IH]; intros i s Hs; [done|].
  cbn [EventEmitter.emit_loop].
  destruct (slot e i s) as [last|]; [|done].
  assert (P (run_body (body (code (fn last))) (log (Invoked last) s)))
    by auto using invariant_run_body.
  destruct (result (code (fn last))); simpl; auto.
Qed.

Lemma invariant_emit fuel e s : P s → P (state_of (emit fuel e s)).
Proof.
  intros Hs. unfold EventEmitter.emit.
  destruct (listener _ !! e); simpl; auto using invariant_emit_loop.
Qed.

Lemma invariant_run_actions script s : P s → P (run_actions script s).
Proof.
  revert s. unfold EventEmitter.run_actions.
  induction script as [|a script IH]; intros s Hs; [done|].
  simpl. apply IH. destruct a as [[]|]; simpl; auto using invariant_emit.
Qed.

End Invariant.

Lemma no_empty_bucket_on e f c o s :
  no_empty_bucket s → no_empty_bucket (on e f c o s).
Proof.
  intros Hs e' b. simpl.
  destruct (decide (e' = e)) as [->|Hne].
  - rewrite lookup_insert_eq. intros [= <-] Hnil.
    pose proof (array_sort_perm compare_order
                  (default [] (listener s !! e)
                   ++ [{| rid := allocated s; eventName := e; fn := f;
                          context := c; order := o |}])) as Hperm.
    rewrite Hnil in Hperm. apply Permutation_nil_l in Hperm.
    by destruct (default [] (listener s !! e)).
  - rewrite lookup_insert_ne by done. apply Hs.
Qed.

Lemma no_empty_bucket_off e f c s :
  no_empty_bucket s → no_empty_bucket (off e f c s).
Proof.
  intros Hs e' b. rewrite listener_off_lookup.
  destruct (decide (e' = e)) as [->|Hne]; [|apply Hs].
  destruct (filter _ _); [done|]. by intros [= <-].
Qed.

Lemma keyed_on e f c o s : keyed s → keyed (on e f c o s).
Proof.
  intros Hs e' b r. simpl.
  destruct (decide (e' = e)) as [->|Hne].
  - rewrite lookup_insert_eq. intros [= <-].
    rewrite array_sort_perm.
    intros [Hr|Hr%list_elem_of_singleton]%elem_of_app; [|by subst r].
    destruct (listener s !! e) as [b|] eqn:Hb; simpl in Hr.
    + by eapply Hs.
    + by apply elem_of_nil in Hr.
  - rewrite lookup_insert_ne by done. apply Hs.
Qed.

Lemma keyed_off e f c s : keyed s → keyed (off e f c s).
Proof.
  intros Hs e' b r. rewrite listener_off_lookup.
  destruct (decide (e' = e)) as [->|Hne]; [|apply Hs].
  destruct (filter _ _) as [|x l] eqn:Hf; [done|].
  intros [= <-] Hr. rewrite <- Hf in Hr.
  apply list_elem_of_filter in Hr as [_ Hr].
  unfold bucket_of in Hr.
  destruct (listener s !! e) as [b|] eqn:Hb; simpl in Hr.
  - by eapply Hs.
  - by apply elem_of_nil in Hr.
Qed.

Lemma no_empty_bucket_run_actions script :
  no_empty_bucket (run_actions script create).
Proof.
  apply (invariant_run_actions no_empty_bucket);
    first [done | apply no_empty_bucket_on | apply no_empty_bucket_off].
Qed.

Lemma keyed_run_actions script : keyed (run_actions script create).
Proof.
  apply (invariant_run_actions keyed);
    first [done | apply keyed_on | apply keyed_off].
Qed.

(** X1. Event names are taken among those that the plain object
    [this.listener] does not inherit from [Object.prototype], in what
    the page calls, in what the listeners call and in the question
    asked. Whatever the page has then done on a new bus (registrations,
    removals, emissions, in any order), [hasListeners e] is true exactly
    when a registration for [e] is in the bus, and otherwise the bus has
    no entry for [e] at all: a bucket emptied by [off] is dropped, never
    kept empty. *)
Theorem hasListeners_iff_registered script e :
  plain_name e →
  Forall (λ a, plain_name (action_event a)) script →
  (∀ f, Forall (λ c, plain_name (call_event c)) (body (code f))) →
  let s := run_actions script create in
  (hasListeners e s = true ↔ ∃ r, r ∈ bucket_of e s)
  ∧ (hasListeners e s = false ↔ listener s !! e = None).
Proof.
  intros _ _ _ s.
  pose proof (no_empty_bucket_run_actions script e) as Hne.
  fold s in Hne. unfold hasListeners, bucket_of.
  destruct (listener s !! e) as [b|]; simpl.
  - specialize (Hne b eq_refl). destruct b as [|r b]; [done|].
    rewrite bool_decide_true by (simpl; lia). split.
    + split; [|done]. intros _. exists r. apply list_elem_of_here.
    + split; done.
  - split; [|done]. split; [done|]. by intros [r Hr%elem_of_nil].
Qed.

(** *** What an emission invokes *)

Lemma emit_loop_invokes_keyed fuel e i s :
  keyed s →
  ∃ rs,
    trace (state_of (emit_loop fuel e i s)) = trace s ++ (Invoked <$> rs)
    ∧ Forall (λ r, eventName r = e) rs.
Proof.
  revert i s. induction fuel as [|fuel IH]; intros i s Hs.
  { exists []. by rewrite app_nil_r. }
  cbn [EventEmitter.emit_loop].
  destruct (slot e i s) as [last|] eqn:Hslot.
  2:{ exists []. by rewrite app_nil_r. }
  assert (eventName last = e) as Hlast.
  { unfold slot in Hslot. destruct (listener s !! e) as [b|] eqn:Hb; [|done].
    simpl in Hslot. eapply Hs; [done|]. by eapply list_elem_of_lookup_2. }
  set (s1 := run_body (body (code (fn last))) (log (Invoked last) s)).
  assert (trace s1 = trace s ++ [Invoked last]) as Htrace
    by (unfold s1; by rewrite EventEmitterFacts.trace_run_body).
  assert (keyed s1) as Hs1
    by (apply (invariant_run_body keyed);
        auto using keyed_on, keyed_off).
  destruct (result (code (fn last))); simpl.
  - exists [last]. rewrite Htrace. split; [done | by repeat constructor].
  - destruct (IH (match slot e i s1 with
                  | Some r => if decide (rid r = rid last) then S i else i
                  | None => i
                  end) s1 Hs1) as (rs & -> & Hrs).
    exists (last :: rs). rewrite Htrace, <- app_assoc.
    split; [done | by constructor].
  - exists [last]. rewrite Htrace. split; [done | by repeat constructor].
Qed.

(** X2. An emission of [e] invokes listeners registered for [e] only, also
    when listeners register and unregister listeners (for any event)
    while it runs. *)
Theorem emit_invokes_only_its_event script fuel e :
  let s := run_actions script create in
  ∃ rs,
    trace (state_of (emit fuel e s))
    = trace s ++ Emitted e :: (Invoked <$> rs)
    ∧ Forall (λ r, eventName r = e) rs.
Proof.
  intros s. unfold EventEmitter.emit.
  destruct (listener (log (Emitted e) s) !! e).
  - destruct (emit_loop_invokes_keyed fuel e 0 (log (Emitted e) s))
      as (rs & -> & Hrs).
    { apply keyed_run_actions. }
    exists rs. simpl. by rewrite <- app_assoc.
  - exists []. done.
Qed.

Lemma emit_loop_dispatches fuel e i s :
  (∀ f, body (code f) = []) →
  length (bucket_of e s) - i < fuel →
  let out := emit_loop fuel e i s in
  completes out
  ∧ listener (state_of out) = listener s
  ∧ allocated (state_of out) = allocated s
  ∧ trace (state_of out)
    = trace s ++ (Invoked <$> dispatched code (drop i (bucket_of e s)))
  ∧ ((∀ r err, r ∈ dispatched code (drop i (bucket_of e s)) →
               result (code (fn r)) ≠ Throw err) →
     returns_normally out).
Proof.
  intros Hquiet. revert i s.
  induction fuel as [|fuel IH]; intros i s Hfuel; [lia|].
  cbn [EventEmitter.emit_loop]. rewrite slot_bucket_of.
  destruct (bucket_of e s !! i) as [last|] eqn:Hslot.
  2:{ apply lookup_ge_None in Hslot. rewrite drop_ge by done.
      simpl. by rewrite app_nil_r. }
  rewrite (drop_S _ _ _ Hslot). cbn [dispatched].
  rewrite Hquiet. cbn [EventEmitter.run_body foldl].
  destruct (result (code (fn last))) eqn:Hres; simpl.
  - repeat split; done.
  - rewrite slot_bucket_of, bucket_of_log, Hslot.
    rewrite decide_True by done.
    apply lookup_lt_Some in Hslot.
    destruct (IH (S i) (log (Invoked last) s)) as (H1 & H2 & H3 & H4 & H5).
    { rewrite bucket_of_log. lia. }
    rewrite bucket_of_log in H4, H5. simpl in H4.
    repeat split; try done.
    + by rewrite H4, <- app_assoc.
    + intros Hno. apply H5. intros r err Hr. apply Hno. by right.
  - repeat split; try done.
    intros Hno. exfalso. eapply (Hno last); [left|done].
Qed.

(** X3. When no listener touches the bus, an emission with one step per
    entry (and one to see the end) finishes, leaves the registrations as
    they were, and invokes the entries of the bucket in their order up
    to and including the first that returns [false] or throws; it
    returns normally unless an invoked listener throws. *)
Theorem emit_dispatches_in_order fuel e s :
  (∀ f, body (code f) = []) →
  length (bucket_of e s) < fuel →
  let out := emit fuel e s in
  completes out
  ∧ listener (state_of out) = listener s
  ∧ trace (state_of out)
    = trace s ++ Emitted e :: (Invoked <$> dispatched code (bucket_of e s))
  ∧ ((∀ r err, r ∈ dispatched code (bucket_of e s) →
               result (code (fn r)) ≠ Throw err) →
     returns_normally out).
Proof.
  intros Hquiet Hfuel. unfold EventEmitter.emit.
  destruct (listener (log (Emitted e) s) !! e) as [b|] eqn:Hb.
  - destruct (emit_loop_dispatches fuel e 0 (log (Emitted e) s) Hquiet)
      as (H1 & H2 & _ & H4 & H5).
    { rewrite bucket_of_log. lia. }
    rewrite bucket_of_log, drop_0 in H4, H5. simpl in H4.
    repeat split; try done. by rewrite H4, <- app_assoc.
  - simpl in Hb. unfold bucket_of. rewrite Hb. simpl. repeat split; done.
Qed.

(** *** Registering and unregistering *)

(** X4. Registering a pair that is not yet registered for [e] and then
    unregistering it gives back the registrations there were: the
    bucket of [e] holds the same entries (the engine's sort may have
    rearranged them) and every other bucket is as it was. *)
Theorem on_then_off_restores e f c o s :
  registered e f c s = 0 →
  bucket_of e (off e f c (on e f c o s)) ≡ₚ bucket_of e s
  ∧ ∀ e', e' ≠ e →
      bucket_of e' (off e f c (on e f c o s)) = bucket_of e' s.
Proof.
  intros Hnone. split.
  - rewrite EventEmitterFacts.bucket_of_off, decide_True by done.
    rewrite (EventEmitterFacts.bucket_of_on array_sort), decide_True by done.
    rewrite array_sort_perm, filter_app, filter_cons, filter_nil.
    rewrite decide_False by (intros H; by apply H).
    rewrite app_nil_r.
    unfold registered in Hnone. apply nil_length_inv in Hnone.
    induction (bucket_of e s) as [|r l IH]; [done|].
    rewrite filter_cons in Hnone |- *.
    destruct (decide (matching f c r)); [done|].
    rewrite decide_True by done. by rewrite IH.
  - intros e' Hne.
    rewrite EventEmitterFacts.bucket_of_off, decide_False by done.
    by rewrite (EventEmitterFacts.bucket_of_on array_sort), decide_False.
Qed.

(** *** Listeners that unregister themselves *)

Lemma filter_all {A} (P : A → Prop) `{∀ x, Decision (P x)} (l : list A) :
  (∀ x, x ∈ l → P x) → filter P l = l.
Proof.
  induction l as [|x l IH]; intros Hall; [done|].
  rewrite filter_cons, decide_True by (apply Hall; left).
  rewrite IH; [done|]. intros y Hy. apply Hall. by right.
Qed.

Lemma filter_out_unique_pair kept r rest :
  NoDup (pair_of <$> (kept ++ r :: rest)) →
  filter (λ x, ¬ matching (fn r) (context r) x) (kept ++ r :: rest)
  = kept ++ rest.
Proof.
  intros Hnodup. rewrite fmap_app, fmap_cons in Hnodup.
  apply NoDup_app in Hnodup as (_ & Hkept & [Hrest _]%NoDup_cons).
  assert (∀ x, pair_of x ≠ pair_of r → ¬ matching (fn r) (context r) x)
    as Hother.
  { intros x Hne [Hf Hc]. apply Hne. unfold pair_of. by rewrite Hf, Hc. }
  rewrite filter_app, filter_cons.
  rewrite decide_False by (intros H; by apply H).
  rewrite !filter_all; [done| |].
  - intros x Hx. apply Hother. intros Heq. apply Hrest.
    rewrite <- Heq. by apply list_elem_of_fmap_2.
  - intros x Hx. apply Hother. intros Heq. apply (Hkept (pair_of x)).
    + by apply list_elem_of_fmap_2.
    + rewrite Heq. left.
Qed.

Lemma emit_loop_self_removal fuel e kept rest s :
  bucket_of e s = kept ++ rest →
  NoDup (rid <$> (kept ++ rest)) →
  NoDup (pair_of <$> (kept ++ rest)) →
  (∀ r, r ∈ rest → removes_at_most_itself code e r) →
  length rest < fuel →
  let out := emit_loop fuel e (length kept) s in
  returns_normally out
  ∧ trace (state_of out) = trace s ++ (Invoked <$> rest)
  ∧ bucket_of e (state_of out) = kept ++ filter (stays code) rest
  ∧ ∀ e', e' ≠ e → bucket_of e' (state_of out) = bucket_of e' s.
Proof.
  revert kept rest s.
  induction fuel as [|fuel IH]; intros kept rest s Hb Hrid Hpair Hself Hfuel;
    [lia|].
  cbn [EventEmitter.emit_loop]. rewrite slot_bucket_of, Hb.
  destruct rest as [|r rest].
  { rewrite lookup_ge_None_2 by (rewrite app_nil_r; lia).
    simpl. rewrite !app_nil_r. rewrite app_nil_r in Hb. repeat split; done. }
  rewrite lookup_app_r, Nat.sub_diag by lia. cbn [lookup list_lookup].
  destruct (Hself r) as [Hres Hbody]; [left|].
  assert (∀ x, x ∈ rest → removes_at_most_itself code e x) as Hself'
    by (intros x Hx; apply Hself; by right).
  rewrite Hres. simpl in Hfuel.
  destruct Hbody as [Hbody|Hbody]; rewrite Hbody;
    cbn [EventEmitter.run_body foldl EventEmitter.run_call].
  - rewrite slot_bucket_of, bucket_of_log, Hb.
    rewrite lookup_app_r, Nat.sub_diag by lia. cbn [lookup list_lookup].
    rewrite decide_True by done.
    destruct (IH (kept ++ [r]) rest (log (Invoked r) s))
      as (H1 & H2 & H3 & H4).
    { by rewrite bucket_of_log, Hb, <- app_assoc. }
    { by rewrite <- app_assoc. }
    { by rewrite <- app_assoc. }
    { done. }
    { lia. }
    rewrite length_app in H1, H2, H3, H4. simpl in H1, H2, H3, H4.
    rewrite Nat.add_1_r in H1, H2, H3, H4.
    split; [done|]. split; [|split; [|done]].
    + rewrite H2. simpl. by rewrite <- app_assoc.
    + rewrite H3, filter_cons, decide_True by done. by rewrite <- app_assoc.
  - set (s1 := off e (fn r) (context r) (log (Invoked r) s)).
    assert (bucket_of e s1 = kept ++ rest) as Hb1.
    { unfold s1. rewrite EventEmitterFacts.bucket_of_off, decide_True by done.
      rewrite bucket_of_log, Hb. by apply filter_out_unique_pair. }
    assert (match slot e (length kept) s1 with
            | Some r' => if decide (rid r' = rid r) then S (length kept)
                         else length kept
            | None => length kept
            end = length kept) as ->.
    { rewrite slot_bucket_of, Hb1.
      destruct ((kept ++ rest) !! length kept) as [r'|] eqn:Hr'; [|done].
      rewrite decide_False; [done|]. intros Heq.
      rewrite lookup_app_r, Nat.sub_diag in Hr' by lia.
      rewrite fmap_app, fmap_cons in Hrid.
      apply NoDup_app in Hrid as (_ & _ & [Hnotin _]%NoDup_cons).
      apply Hnotin. rewrite <- Heq. apply list_elem_of_fmap_2.
      by eapply list_elem_of_lookup_2. }
    destruct (IH kept rest s1) as (H1 & H2 & H3 & H4); [done| | |done|lia|].
    { rewrite fmap_app, fmap_cons in Hrid. rewrite fmap_app.
      apply NoDup_app in Hrid as (Hk & Hd & [_ Hr]%NoDup_cons).
      apply NoDup_app. split; [done|]. split; [|done].
      intros x Hx Hx'. apply (Hd x Hx). by right. }
    { rewrite fmap_app, fmap_cons in Hpair. rewrite fmap_app.
      apply NoDup_app in Hpair as (Hk & Hd & [_ Hr]%NoDup_cons).
      apply NoDup_app. split; [done|]. split; [|done].
      intros x Hx Hx'. apply (Hd x Hx). by right. }
    split; [done|]. split; [|split].
    + rewrite H2. unfold s1. rewrite EventEmitterFacts.trace_off. simpl.
      by rewrite <- app_assoc.
    + rewrite H3, filter_cons, decide_False; [done|].
      unfold stays. by rewrite Hbody.
    + intros e' Hne. rewrite H4 by done. unfold s1.
      by rewrite EventEmitterFacts.bucket_of_off, decide_False.
Qed.

(** X5. Listeners that unregister themselves while they run (the pattern of
    a one-time listener) do not disturb the emission: if every listener
    of [e] returns [undefined] and touches the bus at most by removing
    its own registration, and no pair is registered twice, then every
    listener of the bucket is invoked, once, in the order of the bucket;
    afterwards the bucket holds the ones that did not remove themselves
    and the other buckets are as before. *)
Theorem emit_with_self_removing_listeners fuel e s :
  well_formed s →
  NoDup (pair_of <$> bucket_of e s) →
  (∀ r, r ∈ bucket_of e s → removes_at_most_itself code e r) →
  length (bucket_of e s) < fuel →
  let out := emit fuel e s in
  returns_normally out
  ∧ trace (state_of out)
    = trace s ++ Emitted e :: (Invoked <$> bucket_of e s)
  ∧ bucket_of e (state_of out) = filter (stays code) (bucket_of e s)
  ∧ ∀ e', e' ≠ e → bucket_of e' (state_of out) = bucket_of e' s.
Proof.
  intros [_ Huniq] Hpair Hself Hfuel. unfold EventEmitter.emit.
  destruct (listener (log (Emitted e) s) !! e) as [b|] eqn:Hb.
  - assert (bucket_of e s = b) as Hbs by (unfold bucket_of; simpl in Hb; by rewrite Hb).
    destruct (emit_loop_self_removal fuel e [] (bucket_of e s)
                (log (Emitted e) s)) as (H1 & H2 & H3 & H4); try done.
    + apply NoDup_fmap_2_strong; [|by eapply NoDup_fmap_1].
      intros x y Hx Hy. apply Huniq.
      * apply EventEmitterFacts.live_bucket_of. eauto.
      * apply EventEmitterFacts.live_bucket_of. eauto.
    + simpl in H2. split; [done|]. split; [|done].
      by rewrite H2, <- app_assoc.
  - simpl in Hb. unfold bucket_of. simpl. rewrite Hb. simpl.
    repeat split; done.
Qed.

End Engine.

(** A listener is registered and removed again, with an emission in
    between: afterwards the event has no listeners and no bucket. *)
Lemma hasListeners_iff_registered_witness :
  let s := run_actions insertion_sort quiet
             [ Do (CallOn "login" 1 None None); Emit 5 "login";
               Do (CallOff "login" 1 None) ] create in
  hasListeners "login" s = false ∧ listener s !! "login" = None.
Proof.
  intros s.
  assert (plain_name "login") as Hplain.
  { unfold plain_name, prototype_names. intros Hin.
    repeat (apply elem_of_cons in Hin as [Hin|Hin]; [discriminate Hin|]).
    by apply elem_of_nil in Hin. }
  destruct (hasListeners_iff_registered insertion_sort
              EventEmitterFacts.insertion_sort_perm quiet
              [ Do (CallOn "login" 1 None None); Emit 5 "login";
                Do (CallOff "login" 1 None) ] "login") as [_ H].
  { exact Hplain. }
  { repeat constructor; exact Hplain. }
  { intros f. constructor. }
  assert (hasListeners "login" s = false) as Hno by (vm_compute; reflexivity).
  split; [exact Hno | exact (proj1 H Hno)].
Defined.

(** Listeners for [login] and [logout]; the emission of [login] invokes
    the former only. *)
Lemma emit_invokes_only_its_event_witness :
  let s := run_actions insertion_sort quiet
             [ Do (CallOn "login" 1 None None);
               Do (CallOn "logout" 2 None None) ] create in
  ∃ rs,
    trace (state_of (emit insertion_sort quiet 5 "login" s))
    = trace s ++ Emitted "login" :: (Invoked <$> rs)
    ∧ Forall (λ r, eventName r = "login") rs.
Proof.
  exact (emit_invokes_only_its_event insertion_sort
           EventEmitterFacts.insertion_sort_perm quiet
           [ Do (CallOn "login" 1 None None);
             Do (CallOn "logout" 2 None None) ] 5 "login").
Defined.

(** Three listeners, the second of which returns [false]: the third is
    not invoked. *)
Lemma emit_dispatches_in_order_witness :
  let s := run_actions insertion_sort stopping_code
             [ Do (CallOn "login" 2 None None);
               Do (CallOn "login" 3 None None);
               Do (CallOn "login" 4 None None) ] create in
  trace (state_of (emit insertion_sort stopping_code 4 "login" s))
  = [ Emitted "login";
      Invoked (Registration 0 "login" 2 None None);
      Invoked (Registration 1 "login" 3 None None) ].
Proof.
  intros s.
  destruct (emit_dispatches_in_order insertion_sort stopping_code
              4 "login" s) as (_ & _ & H & _).
  - intros f. unfold stopping_code. by destruct (decide (f = 3)).
  - vm_compute. lia.
  - rewrite H. vm_compute. reflexivity.
Defined.

Lemma on_then_off_restores_witness :
  let s := on insertion_sort "login" 1 None None create in
  bucket_of "login" (off "login" 2 None (on insertion_sort "login" 2 None (Some 0%Z) s))
  ≡ₚ bucket_of "login" s.
Proof.
  intros s.
  destruct (on_then_off_restores insertion_sort
              EventEmitterFacts.insertion_sort_perm
              "login" 2 None (Some 0%Z) s) as [H _].
  - vm_compute. reflexivity.
  - exact H.
Defined.

(** A one-time listener followed by a plain one: both are invoked, the
    plain one stays. *)
Lemma emit_with_self_removing_listeners_witness :
  let s := run_actions insertion_sort sample_code
             [ Do (CallOn "login" 1 None None);
               Do (CallOn "login" 2 None None) ] create in
  let out := emit insertion_sort sample_code 3 "login" s in
  trace (state_of out)
  = [ Emitted "login";
      Invoked (Registration 0 "login" 1 None None);
      Invoked (Registration 1 "login" 2 None None) ]
  ∧ bucket_of "login" (state_of out) = [Registration 1 "login" 2 None None].
Proof.
  intros s out.
  destruct (emit_with_self_removing_listeners insertion_sort sample_code
              3 "login" s) as (_ & H1 & H2 & _).
  - unfold s, EventEmitter.run_actions. simpl.
    repeat apply EventEmitterFacts.well_formed_on;
      try apply EventEmitterFacts.insertion_sort_perm.
    apply EventEmitterFacts.well_formed_create.
  - vm_compute. apply NoDup_cons. split; [|apply NoDup_singleton].
    intros Hin%list_elem_of_singleton. discriminate Hin.
  - intros r Hr. vm_compute in Hr.
    apply elem_of_cons in Hr as [->|Hr];
      [|apply list_elem_of_singleton in Hr as ->].
    + split; [done|]. by right.
    + split; [done|]. by left.
  - vm_compute. lia.
  - unfold out. split; [rewrite H1 | rewrite H2]; vm_compute; reflexivity.
Defined.

(** The loop advances by position, so a listener that removes two
    earlier entries makes it miss the entry that follows it. *)
Example emit_skips_after_two_removals :
  let code : nat → behaviour := λ f,
    if decide (f = 3)
    then {| body := [CallOff "e" 1 None; CallOff "e" 2 None];
            result := ReturnOther |}
    else {| body := []; result := ReturnOther |} in
  let s := run_actions insertion_sort code
             [ Do (CallOn "e" 1 None None); Do (CallOn "e" 2 None None);
               Do (CallOn "e" 3 None None); Do (CallOn "e" 4 None None) ]
             create in
  trace (state_of (emit insertion_sort code 9 "e" s))
  = [ Emitted "e";
      Invoked (Registration 0 "e" 1 None None);
      Invoked (Registration 1 "e" 2 None None);
      Invoked (Registration 2 "e" 3 None None) ]
  ∧ bucket_of "e" (state_of (emit insertion_sort code 9 "e" s))
    = [ Registration 2 "e" 3 None None; Registration 3 "e" 4 None None ].
Proof. vm_compute. split; reflexivity. Qed.

End EventEmitterMore.

(** * Further properties of the transport *)

Module TransportMore.

Import Transport.

Local Open Scope nat_scope.

(** *** The constructor list *)

Lemma first_factory_spec fs env req :
  first_factory fs env = Some req
  ↔ ∃ k f,
      fs !! k = Some f ∧ f env = Some req
      ∧ ∀ j g, j < k → fs !! j = Some g → g env = None.
Proof.
  induction fs as [|f fs IH]; simpl.
  - split; [done|]. by intros (k & g & Hk & _).
  - destruct (f env) as [x|] eqn:Hf.
    + split.
      * intros [= ->]. exists 0, f. repeat split; [done|]. intros j g Hj. lia.
      * intros (k & g & Hk & Hg & Hbefore). destruct k as [|k].
        -- simpl in Hk. injection Hk as <-. congruence.
        -- specialize (Hbefore 0 f). simpl in Hbefore.
           rewrite Hbefore in Hf by (done || lia). done.
    + rewrite IH. split.
      * intros (k & g & Hk & Hg & Hbefore). exists (S k), g.
        repeat split; [done..|]. intros [|j] g' Hj Hg'.
        -- simpl in Hg'. by injection Hg' as <-.
        -- apply (Hbefore j); [lia|done].
      * intros (k & g & Hk & Hg & Hbefore). destruct k as [|k].
        -- simpl in Hk. injection Hk as <-. congruence.
        -- exists k, g. repeat split; [done..|]. intros j g' Hj Hg'.
           apply (Hbefore (S j)); [lia|done].
Qed.

(** X6. [createXMLHTTPObject] returns the object of the earliest factory of
    the list that does not throw, untouched: [XMLHttpRequest] whenever
    the page has it, otherwise the first ActiveX id of the list that can
    be constructed. *)
Theorem createXMLHTTPObject_earliest_factory env :
  (has_XMLHttpRequest env = true →
   createXMLHTTPObject env = Some (fresh "XMLHttpRequest"))
  ∧ ∀ req,
      createXMLHTTPObject env = Some req
      ↔ ∃ k f,
          XMLHttpFactories !! k = Some f ∧ f env = Some req
          ∧ ∀ j g, j < k → XMLHttpFactories !! j = Some g → g env = None.
Proof.
  split.
  - intros Hxhr. unfold createXMLHTTPObject, XMLHttpFactories.
    cbn [first_factory]. unfold new_XMLHttpRequest. by rewrite Hxhr.
  - intros req. apply first_factory_spec.
Qed.

(** An old browser with one of the ActiveX ids only. *)
Example createXMLHTTPObject_falls_back :
  createXMLHTTPObject
    {| has_XMLHttpRequest := false;
       has_ActiveXObject := λ progid,
         bool_decide (progid = "Msxml2.XMLHTTP"
                      ∨ progid = "Microsoft.XMLHTTP") |}
  = Some (fresh "Msxml2.XMLHTTP").
Proof. vm_compute. reflexivity. Qed.

(** *** Promises settle once *)

Lemma promise_state_settle_settled p q outcome w :
  is_settled (promise_state p w) →
  promise_state p (settle q outcome w) = promise_state p w.
Proof.
  unfold promise_state, settle. intros Hp.
  destruct (promises w !! q) as [[]|] eqn:Hq; simpl; try done.
  destruct (decide (p = q)) as [->|Hne].
  - by rewrite Hq in Hp.
  - by rewrite list_lookup_insert_ne.
Qed.

Lemma promise_state_settle_other p q outcome w :
  p ≠ q → promise_state p (settle q outcome w) = promise_state p w.
Proof.
  unfold promise_state, settle. intros Hne.
  destruct (promises w !! q) as [[]|]; simpl; try done.
  by rewrite list_lookup_insert_ne.
Qed.

Lemma promise_state_getPromise p w :
  is_settled (promise_state p w) →
  promise_state p (getPromise w).1 = promise_state p w.
Proof.
  unfold promise_state. simpl. intros Hp.
  destruct (promises w !! p) as [st|] eqn:Hst; [|done].
  by rewrite (lookup_app_l_Some _ _ _ _ Hst).
Qed.

Lemma promise_state_sendRequest p env url postData transformFn w :
  is_settled (promise_state p w) →
  promise_state p (sendRequest env url postData transformFn w).1
  = promise_state p w.
Proof.
  intros Hp. unfold sendRequest.
  destruct (createXMLHTTPObject env); simpl.
  - by apply (promise_state_getPromise p w).
  - pose proof (promise_state_getPromise p w Hp) as Hget. simpl in Hget.
    unfold reject. rewrite promise_state_settle_settled; [done|].
    by rewrite Hget.
Qed.

Section Json.

Variable JSON_parse : string → option value.

Abbreviation run_handler := (Transport.run_handler JSON_parse).
Abbreviation readystatechange := (Transport.readystatechange JSON_parse).
Abbreviation happen := (Transport.happen JSON_parse).
Abbreviation history := (Transport.history JSON_parse).

(** What a run of the handler can do to the promises: nothing, or one
    [settle] of the promise it holds, and that only in ready state 4. *)
Lemma run_handler_promises h state status responseText w :
  let w' := state_of (run_handler h state status responseText w) in
  promises w' = promises w
  ∨ (state = 4%Z ∧ ∃ outcome b,
       is_settled outcome
       ∧ promises w' = promises (settle (h_promise h) outcome (with_bus b w))).
Proof.
  unfold Transport.run_handler.
  case_bool_decide; simpl; [|by left].
  destruct (JSON_parse responseText) as [data|]; simpl; [|by left].
  assert (∀ outcome, promises (settle (h_promise h) outcome w)
                     = promises (settle (h_promise h) outcome
                                   (with_bus (bus w) w))) as Hsame.
  { intros outcome. unfold settle. simpl.
    by destruct (promises w !! h_promise h) as [[]|]. }
  destruct (_ && _); simpl.
  - right. split; [done|].
    exists (Rejected (envelope status data)), (bus w).
    split; [done|]. apply Hsame.
  - destruct (h_transform h) as [f|]; simpl.
    + destruct (f _ _) as [b v|b e|b]; simpl; [|by left..].
      right. split; [done|]. by exists (Resolved v), b.
    + right. split; [done|].
      exists (Resolved (envelope status data)), (bus w).
      split; [done|]. apply Hsame.
Qed.

Lemma promise_state_readystatechange p k state status responseText w :
  is_settled (promise_state p w) →
  promise_state p (state_of (readystatechange k state status responseText w))
  = promise_state p w.
Proof.
  intros Hp. unfold Transport.readystatechange.
  destruct (requests w !! k ≫= onreadystatechange) as [h|]; [|done].
  destruct (run_handler_promises h state status responseText w)
    as [Heq|(_ & outcome & b & _ & Heq)];
    unfold promise_state in *; rewrite Heq; [done|].
  by apply (promise_state_settle_settled p (h_promise h) outcome (with_bus b w)).
Qed.

(** X7. A promise that is resolved or rejected stays as it is, with the
    same value, whatever requests are made and whatever the browser
    fires afterwards, the completion of its own request a second time
    included: no promise is settled twice or both ways. *)
Theorem settled_promise_never_changes hs p w :
  is_settled (promise_state p w) →
  promise_state p (history hs w) = promise_state p w.
Proof.
  revert w. unfold Transport.history.
  induction hs as [|h hs IH]; intros w Hp; [done|].
  simpl. assert (promise_state p (happen h w) = promise_state p w) as Hstep.
  { destruct h; simpl.
    - by apply promise_state_sendRequest.
    - by apply promise_state_readystatechange. }
  rewrite IH; [done|]. by rewrite Hstep.
Qed.

(** X8. The browser firing on request [k] changes no promise but the one
    that the handler of request [k] holds, and that one only when the
    request is complete (ready state 4) and the promise still pending;
    it is settled then. *)
Theorem readystatechange_settles_only_its_promise
    k state status responseText p w :
  let w' := state_of (readystatechange k state status responseText w) in
  promise_state p w' ≠ promise_state p w →
  state = 4%Z
  ∧ promise_state p w = Pending
  ∧ is_settled (promise_state p w')
  ∧ promise_of <$> (requests w !! k) = Some (Some p).
Proof.
  intros w' Hchange. unfold w', Transport.readystatechange in *.
  destruct (requests w !! k) as [r|] eqn:Hr; [|done]. simpl in *.
  unfold promise_of.
  destruct (onreadystatechange r) as [h|]; [|done]. simpl in *.
  destruct (run_handler_promises h state status responseText w)
    as [Heq|(Hstate & outcome & b & Hout & Heq)].
  { unfold promise_state in Hchange. by rewrite Heq in Hchange. }
  assert (∀ q, promise_state q
                 (state_of (run_handler h state status responseText w))
               = promise_state q (settle (h_promise h) outcome (with_bus b w)))
    as Hps by (intros q; unfold promise_state; by rewrite Heq).
  rewrite Hps in Hchange |- *.
  destruct (decide (p = h_promise h)) as [->|Hne].
  2:{ by rewrite promise_state_settle_other in Hchange. }
  destruct (promise_state (h_promise h) w) eqn:Hst.
  - split; [done|]. split; [done|]. split; [|done].
    destruct (decide (h_promise h < length (promises w))) as [Hlt|Hge].
    + rewrite (TransportFacts.promise_state_settle_eq _ _ (with_bus b w));
        done.
    + exfalso. apply Hchange.
      unfold promise_state, settle. simpl.
      rewrite (lookup_ge_None_2 (promises w)) by lia. simpl.
      by rewrite lookup_ge_None_2 by lia.
  - exfalso. apply Hchange.
    rewrite (promise_state_settle_settled _ _ _ (with_bus b w));
      [done|]. change (promise_state (h_promise h) (with_bus b w))
        with (promise_state (h_promise h) w). by rewrite Hst.
  - exfalso. apply Hchange.
    rewrite (promise_state_settle_settled _ _ _ (with_bus b w));
      [done|]. change (promise_state (h_promise h) (with_bus b w))
        with (promise_state (h_promise h) w). by rewrite Hst.
Qed.

(** *** Requests on the wire *)

Lemma length_promises_settle p outcome w :
  length (promises (settle p outcome w)) = length (promises w).
Proof.
  unfold settle. destruct (promises w !! p) as [[]|]; simpl; try done.
  apply length_insert.
Qed.

Lemma readystatechange_keeps_requests k state status responseText w :
  let w' := state_of (readystatechange k state status responseText w) in
  requests w' = requests w ∧ length (promises w') = length (promises w).
Proof.
  unfold Transport.readystatechange.
  destruct (requests w !! k ≫= onreadystatechange) as [h|]; [|done].
  unfold Transport.run_handler.
  case_bool_decide; simpl; [|done].
  destruct (JSON_parse responseText) as [data|]; simpl; [|done].
  destruct (_ && _); simpl.
  - unfold reject.
    by rewrite TransportFacts.requests_settle, length_promises_settle.
  - destruct (h_transform h) as [f|]; simpl.
    + destruct (f _ _) as [b v|b e|b]; simpl; [|done..].
      unfold resolve.
      by rewrite TransportFacts.requests_settle, length_promises_settle.
    + unfold resolve.
      by rewrite TransportFacts.requests_settle, length_promises_settle.
Qed.

Lemma orderly_sendRequest env url postData transformFn w :
  orderly w → orderly (sendRequest env url postData transformFn w).1.
Proof.
  intros (Hsent & Hlt & Hnodup). unfold sendRequest.
  destruct (createXMLHTTPObject env) as [req|] eqn:Hreq; simpl.
  - assert (req = fresh (constructed_by req)) as Hfresh.
    { apply first_factory_spec in Hreq as (k & f & Hk & Hf & _).
      unfold XMLHttpFactories in Hk.
      repeat (destruct k as [|k]; simpl in Hk;
              [injection Hk as <-;
               unfold new_XMLHttpRequest, new_ActiveXObject in Hf;
               destruct (_ : bool); by inversion Hf|]).
      done. }
    rewrite Hfresh. unfold orderly. simpl. split; [|split].
    + apply Forall_app. split; [done|]. apply Forall_singleton.
      unfold as_sent. simpl. repeat split; eauto.
    + intros r p [Hr|Hr%list_elem_of_singleton]%elem_of_app Hp.
      * rewrite length_app. simpl. specialize (Hlt r p Hr Hp). lia.
      * subst r. injection Hp as <-. rewrite length_app. simpl. lia.
    + rewrite fmap_app. apply NoDup_app. split; [done|]. split.
      * intros x Hx [= ->]%list_elem_of_singleton.
        apply list_elem_of_fmap in Hx as (r & Hp & Hr).
        pose proof (Hlt r (length (promises w)) Hr (eq_sym Hp)). lia.
      * apply NoDup_singleton.
  - unfold orderly, reject.
    rewrite TransportFacts.requests_settle. simpl.
    split; [done|]. split; [|done].
    intros r p Hr Hp. rewrite length_promises_settle. simpl.
    rewrite length_app. simpl. specialize (Hlt r p Hr Hp). lia.
Qed.

Lemma orderly_happen h w : orderly w → orderly (happen h w).
Proof.
  intros Hw. destruct h; simpl.
  - by apply orderly_sendRequest.
  - destruct (readystatechange_keeps_requests k state status responseText w)
      as [Hreq Hlen].
    destruct Hw as (H1 & H2 & H3). unfold orderly.
    rewrite Hreq, Hlen. done.
Qed.

(** X9. Whatever requests are made on a new page and whatever the browser
    fires, every request object in the world has been sent with
    credentials, opened asynchronously, declared as JSON, as a POST
    exactly when it carries a non-empty body and as a GET otherwise; and
    no two requests settle the same promise. *)
Theorem requests_are_as_sent hs :
  let w := history hs start in
  Forall as_sent (requests w) ∧ NoDup (promise_of <$> requests w).
Proof.
  intros w. assert (orderly w) as (H1 & _ & H3); [|done].
  unfold w, Transport.history.
  assert (orderly start) as Hstart.
  { split; [constructor|]. split; [|constructor].
    intros r p Hr. by apply elem_of_nil in Hr. }
  revert Hstart. generalize start.
  induction hs as [|h hs IH]; intros w0 Hw0; [done|].
  simpl. by apply IH, orderly_happen.
Qed.

End Json.

(** A GET is answered with 200; then the browser fires on the same
    request once more with 404, and another request is made. *)
Lemma settled_promise_never_changes_witness :
  let w1 := (get browser "https://api.saaslet.com/users/data" None start).1 in
  let w2 := state_of (Transport.readystatechange parse_sample 0 4 200 "{}" w1) in
  promise_state 0
    (Transport.history parse_sample
       [ Fired 0 4 404 (member_text "error" "not found");
         Asked bare "https://api.saaslet.com/users/data" None None ] w2)
  = Resolved (envelope 200 (VObject [])).
Proof.
  intros w1 w2.
  rewrite (settled_promise_never_changes parse_sample
             [ Fired 0 4 404 (member_text "error" "not found");
               Asked bare "https://api.saaslet.com/users/data" None None ]
             0 w2).
  - vm_compute. reflexivity.
  - vm_compute. exact I.
Defined.

Lemma readystatechange_settles_only_its_promise_witness :
  let w1 := (get browser "https://api.saaslet.com/users/data" None start).1 in
  promise_state 0 w1 = Pending
  ∧ is_settled
      (promise_state 0
         (state_of (Transport.readystatechange parse_sample 0 4 200 "{}" w1))).
Proof.
  intros w1.
  destruct (readystatechange_settles_only_its_promise parse_sample
              0 4%Z 200%Z "{}" 0 w1) as (_ & H1 & H2 & _).
  - vm_compute. discriminate.
  - split; [exact H1 | exact H2].
Defined.

Lemma requests_are_as_sent_witness :
  Forall as_sent
    (requests
       (Transport.history parse_sample
          [ Asked browser "https://api.saaslet.com/users/login"
              (Some "{}") None;
            Fired 0 4 200 "{}";
            Asked browser "https://api.saaslet.com/users/data" None None ]
          start)).
Proof.
  exact (proj1 (requests_are_as_sent parse_sample
           [ Asked browser "https://api.saaslet.com/users/login"
               (Some "{}") None;
             Fired 0 4 200 "{}";
             Asked browser "https://api.saaslet.com/users/data" None None ])).
Defined.

End TransportMore.

(** * Further properties of the account client *)

Module UserMore.

Import Transport UserData.

Local Open Scope nat_scope.

Section Api.

Variable JSON_parse : string → option value.

Abbreviation readystatechange := (Transport.readystatechange JSON_parse).

(** The completion of a request that was sent with a transform, on a
    status of success and a body that parses. *)
Lemma success_with_transform
    env url postData f w w1 p status responseText data :
  sendRequest env url postData (Some f) w = (w1, Some p) →
  JSON_parse responseText = Some data →
  success status →
  readystatechange (length (requests w)) 4 status responseText w1
  = match f (envelope status data) (bus w1) with
    | Normal b v => Normal (resolve p v (with_bus b w1)) tt
    | Thrown b e => Thrown (with_bus b w1) e
    | OutOfFuel b => OutOfFuel (with_bus b w1)
    end
  ∧ promise_state p w1 = Pending
  ∧ p < length (promises w1)
  ∧ bus w1 = bus w.
Proof.
  intros Hsend Hparse Hok.
  apply TransportFacts.sendRequest_handler in Hsend
    as (-> & Hbus & Hpending & Hlt & Hh).
  unfold Transport.readystatechange. rewrite Hh.
  unfold Transport.run_handler. simpl.
  rewrite Hparse, TransportFacts.failure_branch.
  by rewrite bool_decide_false by tauto.
Qed.

(** X10. [get(key)] and [getAll()] read the same answer: when the data
    endpoint answers 200 or 304 with a user whose [data] is an object,
    [getAll] resolves with that object and [get(key)] with its entry
    for [key], [undefined] when it has none. ([key] is not one of the
    names inherited from [Object.prototype]; for those JS gives the
    inherited member, which is outside the values modelled.) *)
Theorem get_agrees_with_getAll
    env u key w w1 p1 w2 p2 status responseText data user settings :
  own_key key →
  UserData.get env u key w = (w1, Some p1) →
  UserData.getAll env u w = (w2, Some p2) →
  success status →
  JSON_parse responseText = Some data →
  get_property data "user" = Some user →
  get_property user "data" = Some (VObject settings) →
  let k := length (requests w) in
  promise_state p1 (state_of (readystatechange k 4 status responseText w1))
  = Resolved (default VUndefined (assoc key settings))
  ∧ promise_state p2 (state_of (readystatechange k 4 status responseText w2))
    = Resolved (VObject settings).
Proof.
  intros _ Hsend1 Hsend2 Hok Hparse Huser Hsettings k.
  unfold UserData.get, UserData.getAll, Transport.get in Hsend1, Hsend2.
  destruct (success_with_transform _ _ _ _ _ _ _ status responseText data
              Hsend1 Hparse Hok) as (H1 & Hp1 & Hlt1 & _).
  destruct (success_with_transform _ _ _ _ _ _ _ status responseText data
              Hsend2 Hparse Hok) as (H2 & Hp2 & Hlt2 & _).
  unfold k. rewrite H1, H2.
  unfold get_transform, getAll_transform, user_of, envelope. simpl.
  rewrite Huser. simpl. rewrite Hsettings. simpl.
  unfold resolve.
  rewrite !TransportFacts.promise_state_settle_eq; done.
Qed.

Lemma with_bus_id w : with_bus (bus w) w = w.
Proof. by destruct w. Qed.

Lemma ask_is_sendRequest (JSON_stringify : value → option string)
    env u q w :
  ∃ url postData transformFn,
    ask JSON_stringify env u q w
    = sendRequest env url postData transformFn w
    ∧ match transformFn with
      | None => ¬ reader q
      | Some f =>
          (q = GetInfo ∧ f = getInfo_transform)
          ∨ (q = GetAll ∧ f = getAll_transform)
          ∨ ∃ key, q = Get key ∧ f = get_transform key
      end.
Proof.
  destruct q; simpl; unfold UserData.set, UserData.get, UserData.getAll,
    UserData.getInfo, UserData.changeEmail, UserData.changePassword,
    Transport.post, Transport.get;
    eexists _, _, _; (split; [reflexivity|]); simpl; eauto 6.
Qed.

(** X11. A 200 or 304 answer without a user (the body is [null], or has no
    [user], or a [null] one) makes [get], [getAll] and [getInfo] throw a
    TypeError in the handler; their promise is neither resolved nor
    rejected and stays pending. *)
Theorem readers_stay_pending_without_user
    (JSON_stringify : value → option string)
    env u q w w1 p status responseText data :
  reader q →
  ask JSON_stringify env u q w = (w1, Some p) →
  success status →
  JSON_parse responseText = Some data →
  (nullish data
   ∨ ∃ user, get_property data "user" = Some user ∧ nullish user) →
  readystatechange (length (requests w)) 4 status responseText w1
  = Thrown w1 TypeError
  ∧ promise_state p w1 = Pending.
Proof.
  intros Hreader Hask Hok Hparse Hshape.
  destruct (ask_is_sendRequest JSON_stringify env u q w)
    as (url & postData & [f|] & Heq & Hf); [|done].
  rewrite Heq in Hask.
  destruct (success_with_transform _ _ _ _ _ _ _ status responseText data
              Hask Hparse Hok) as (-> & Hp & _ & _).
  split; [|done].
  assert (user_of (envelope status data) = None
          ∨ ∃ user, user_of (envelope status data) = Some user
                    ∧ nullish user) as Huser.
  { unfold user_of, envelope. simpl.
    destruct Hshape as [[-> | ->]|(user & -> & Hnull)]; eauto. }
  destruct Hf as [[_ ->]|[[_ ->]|(key & _ & ->)]];
    unfold getInfo_transform, getAll_transform, get_transform, returning;
    destruct Huser as [->|(user & -> & [-> | ->])]; simpl;
    by rewrite with_bus_id.
Qed.

(** X12. [getInfo] resolves with the id, the address of the email and the
    subscriptions of the user; subscriptions that are missing (or falsy)
    are given as the empty array. *)
Theorem getInfo_defaults_subscriptions
    env u w w1 p status responseText data user id email address subscriptions :
  UserData.getInfo env u w = (w1, Some p) →
  success status →
  JSON_parse responseText = Some data →
  get_property data "user" = Some user →
  get_property user "id" = Some id →
  get_property user "email" = Some email →
  get_property email "address" = Some address →
  get_property user "subscriptions" = Some subscriptions →
  promise_state p
    (state_of
       (readystatechange (length (requests w)) 4 status responseText w1))
  = Resolved
      (VObject
         [ ("id", id); ("email", address);
           ("subscriptions",
            if truthy_value subscriptions then subscriptions
            else VArray []) ])
  ∧ (subscriptions = VUndefined →
     promise_state p
       (state_of
          (readystatechange (length (requests w)) 4 status responseText w1))
     = Resolved
         (VObject [("id", id); ("email", address); ("subscriptions", VArray [])])).
Proof.
  intros Hsend Hok Hparse Huser Hid Hemail Haddress Hsubs.
  unfold UserData.getInfo, Transport.get in Hsend.
  destruct (success_with_transform _ _ _ _ _ _ _ status responseText data
              Hsend Hparse Hok) as (-> & Hp & Hlt & _).
  unfold getInfo_transform, user_of, envelope. simpl.
  rewrite Huser. simpl. rewrite Hid. simpl. rewrite Hemail. simpl.
  rewrite Haddress. simpl. rewrite Hsubs. simpl.
  unfold resolve. rewrite TransportFacts.promise_state_settle_eq by done.
  split; [done|]. by intros ->.
Qed.

(** *** Operations that announce nothing *)

Lemma returning_leaves_bus b r : state_of (returning b r) = b.
Proof. by destruct r. Qed.

Lemma handler_leaves_bus h state status responseText w :
  match h_transform h with Some f => leaves_bus f | None => True end →
  bus (state_of (Transport.run_handler JSON_parse h state status responseText w))
  = bus w.
Proof.
  intros Hpure. unfold Transport.run_handler.
  case_bool_decide; simpl; [|done].
  destruct (JSON_parse responseText) as [data|]; simpl; [|done].
  destruct (_ && _); simpl.
  - unfold reject. by rewrite TransportFacts.bus_settle.
  - destruct (h_transform h) as [f|]; simpl.
    + specialize (Hpure (envelope status data) (bus w)).
      destruct (f _ _) as [b v|b e|b]; simpl in *; subst b; try done.
      unfold resolve. by rewrite TransportFacts.bus_settle.
    + unfold resolve. by rewrite TransportFacts.bus_settle.
Qed.

(** X13. Only [signup], [login] and [logout] use the bus. Whatever the
    browser reports on the request of a [set], [get], [getAll],
    [getInfo], [changeEmail], [changePassword] or [isLoggedIn] call, in
    any ready state and with any status and body, the bus (listeners and
    emissions) is what it was before the call. *)
Theorem queries_leave_the_bus_alone
    (JSON_stringify : value → option string)
    env u q w state status responseText :
  let k := length (requests w) in
  bus (state_of
         (readystatechange k state status responseText
            (ask JSON_stringify env u q w).1))
  = bus w
  ∧ bus (state_of
           (readystatechange k state status responseText
              (User.isLoggedIn env u w).1))
    = bus w.
Proof.
  intros k.
  assert (∀ url postData transformFn,
            match transformFn with Some f => leaves_bus f | None => True end →
            bus (state_of
                   (readystatechange k state status responseText
                      (sendRequest env url postData transformFn w).1))
            = bus w) as Hgen.
  { intros url postData transformFn Hpure.
    destruct (sendRequest env url postData transformFn w) as [w1 [p|]] eqn:Hs.
    - apply TransportFacts.sendRequest_handler in Hs
        as (_ & Hbus & _ & _ & Hh).
      simpl. unfold Transport.readystatechange, k. rewrite Hh.
      by rewrite handler_leaves_bus.
    - pose proof (UserFacts.bus_sendRequest env url postData transformFn w)
        as Hbus. rewrite Hs in Hbus. simpl in *.
      unfold Transport.readystatechange.
      destruct (requests w1 !! k ≫= onreadystatechange) as [h|] eqn:Hh;
        [|done].
      exfalso. revert Hs Hh. unfold sendRequest.
      destruct (createXMLHTTPObject env); simpl; [done|].
      intros [= <-]. unfold reject.
      rewrite TransportFacts.requests_settle. simpl. unfold k.
      by rewrite lookup_ge_None_2. }
  split.
  - destruct (ask_is_sendRequest JSON_stringify env u q w)
      as (url & postData & transformFn & -> & Hf).
    apply Hgen. destruct transformFn as [f|]; [|done].
    intros d b.
    destruct Hf as [[_ ->]|[[_ ->]|(key & _ & ->)]];
      apply returning_leaves_bus.
  - unfold User.isLoggedIn, Transport.get.
    specialize (Hgen (User.apiUrl u +:+ "users/data") None None I).
    by destruct (sendRequest _ _ _ _ _).
Qed.

End Api.

Lemma get_agrees_with_getAll_witness :
  let w1 := (UserData.get browser User.api "key-a" start).1 in
  let w2 := (UserData.getAll browser User.api start).1 in
  promise_state 0
    (state_of (Transport.readystatechange parse_profile 0 4 200 profile_text w1))
  = Resolved (VString "val-a")
  ∧ promise_state 0
      (state_of (Transport.readystatechange parse_profile 0 4 200 profile_text w2))
    = Resolved
        (VObject [("key-a", VString "val-a"); ("key-b", VString "val-b")]).
Proof.
  intros w1 w2.
  apply (get_agrees_with_getAll parse_profile browser User.api "key-a"
           start w1 0 w2 0 200 profile_text profile_data
           (VObject
              [ ("id", VString "u1");
                ("email", VObject [("address", VString "a@saaslet.baz")]);
                ("data",
                 VObject [ ("key-a", VString "val-a");
                           ("key-b", VString "val-b") ]) ])
           [("key-a", VString "val-a"); ("key-b", VString "val-b")]);
    try reflexivity.
  - unfold own_key, inherited_names. intros Hin.
    repeat (apply elem_of_cons in Hin as [Hin|Hin]; [discriminate Hin|]).
    by apply elem_of_nil in Hin.
  - by left.
Defined.

(** The data endpoint answers 200 with an empty object. *)
Lemma readers_stay_pending_without_user_witness :
  let w1 := (UserData.getInfo browser User.api start).1 in
  Transport.readystatechange parse_sample 0 4 200 "{}" w1
  = Thrown w1 TypeError
  ∧ promise_state 0 w1 = Pending.
Proof.
  intros w1.
  apply (readers_stay_pending_without_user parse_sample stringify_sample
           browser User.api GetInfo start w1 0 200 "{}" (VObject []));
    try reflexivity.
  - by left.
  - right. exists VUndefined. split; [reflexivity | by left].
Defined.

Lemma getInfo_defaults_subscriptions_witness :
  let w1 := (UserData.getInfo browser User.api start).1 in
  promise_state 0
    (state_of (Transport.readystatechange parse_profile 0 4 200 profile_text w1))
  = Resolved
      (VObject [ ("id", VString "u1"); ("email", VString "a@saaslet.baz");
                 ("subscriptions", VArray []) ]).
Proof.
  intros w1.
  destruct (getInfo_defaults_subscriptions parse_profile browser User.api
              start w1 0 200 profile_text profile_data
              (VObject
                 [ ("id", VString "u1");
                   ("email", VObject [("address", VString "a@saaslet.baz")]);
                   ("data",
                    VObject [ ("key-a", VString "val-a");
                              ("key-b", VString "val-b") ]) ])
              (VString "u1")
              (VObject [("address", VString "a@saaslet.baz")])
              (VString "a@saaslet.baz") VUndefined
              eq_refl (or_introl eq_refl) eq_refl eq_refl eq_refl eq_refl
              eq_refl eq_refl) as [_ H].
  exact (H eq_refl).
Defined.

(** A [set] answered with 200 resolves with the envelope, and a
    listener for [login] is not invoked by it. *)
Example set_resolves_with_envelope :
  let listening :=
    with_bus (EventEmitter.on EventEmitter.insertion_sort "login" 7 None None
                EventEmitter.create) start in
  let w1 := (UserData.set stringify_sample browser User.api "key-a"
               (VString "val-a") listening).1 in
  let w2 := state_of (Transport.readystatechange parse_sample 0 4 200 "{}" w1) in
  promise_state 0 w2 = Resolved (envelope 200 (VObject []))
  ∧ EventEmitter.trace (bus w2) = [].
Proof. vm_compute. split; reflexivity. Qed.

End UserMore.

(** * Further properties of the widget registry *)

Module WidgetsMore.

Import Widgets.

Local Open Scope nat_scope.

Lemma detach_detach wd : detach (detach wd) = detach wd.
Proof. done. Qed.

(** X14. Destroying a widget twice is the same as destroying it once. *)
Theorem destroy_idempotent ref s :
  destroy ref (destroy ref s) = destroy ref s.
Proof.
  unfold destroy at 2 3.
  destruct (objects s !! ref) as [wd|] eqn:Hwd.
  2:{ unfold destroy. by rewrite Hwd. }
  unfold destroy, _removeWidget, update_object. simpl.
  rewrite list_lookup_alter_eq, Hwd. simpl. f_equal.
  - rewrite list_alter_alter_eq. apply list_alter_ext; [|done].
    intros x _. apply detach_detach.
  - apply delete_delete_eq.
Qed.

(** *** The registry and the widgets *)

Lemma sequential_update_object ref f s :
  (∀ wd, id (f wd) = id wd) →
  sequential s → sequential (update_object ref f s).
Proof.
  intros Hf [Hcount Hids]. unfold sequential.
  rewrite (WidgetsFacts.assigned_ids_update_object ref f s Hf).
  simpl. by rewrite length_alter.
Qed.

Lemma sequential_onWidgetMessage msg s :
  sequential s → sequential (state_of (_onWidgetMessage msg s)).
Proof.
  intros Hs. unfold _onWidgetMessage.
  destruct (negb _); [done|]. destruct (bool_decide _); [|done].
  destruct (activeWidgets s !! _); [|done].
  destruct (data _); [|done]. simpl.
  by apply sequential_update_object.
Qed.

Lemma ids_injective s r1 r2 wd1 wd2 :
  sequential s →
  objects s !! r1 = Some wd1 → objects s !! r2 = Some wd2 →
  id wd1 = id wd2 → r1 = r2.
Proof.
  intros Hs H1 H2 Heq.
  apply (NoDup_lookup (assigned_ids s) r1 r2 (id wd1)).
  - by apply WidgetsFacts.sequential_NoDup.
  - unfold assigned_ids. by rewrite list_lookup_fmap, H1.
  - unfold assigned_ids. by rewrite list_lookup_fmap, H2, Heq.
Qed.

Lemma registry_consistent_update_object ref f s :
  (∀ wd, id (f wd) = id wd) →
  (∀ wd, attached (iFrame (f wd)) = attached (iFrame wd)) →
  registry_consistent s → registry_consistent (update_object ref f s).
Proof.
  intros Hid Hatt Hs i r. rewrite (Hs i r). simpl. split.
  - intros (wd & Hwd & Hi & Ha).
    destruct (decide (ref = r)) as [->|Hne].
    + exists (f wd). rewrite list_lookup_alter_eq, Hwd, Hid, Hatt. done.
    + exists wd. by rewrite list_lookup_alter_ne.
  - intros (wd & Hwd & Hi & Ha).
    destruct (decide (ref = r)) as [->|Hne].
    + rewrite list_lookup_alter_eq in Hwd.
      destruct (objects s !! r) as [wd0|]; [|done].
      injection Hwd as <-. exists wd0. by rewrite <- Hid, <- Hatt.
    + rewrite list_lookup_alter_ne in Hwd by done. by exists wd.
Qed.

Lemma registry_consistent_onWidgetMessage msg s :
  registry_consistent s →
  registry_consistent (state_of (_onWidgetMessage msg s)).
Proof.
  intros Hs. unfold _onWidgetMessage.
  destruct (negb _); [done|]. destruct (bool_decide _); [|done].
  destruct (activeWidgets s !! _); [|done].
  destruct (data _); [|done]. simpl.
  by apply registry_consistent_update_object.
Qed.

Lemma registry_consistent_destroy ref s :
  sequential s → registry_consistent s → registry_consistent (destroy ref s).
Proof.
  intros Hseq Hs. unfold destroy.
  destruct (objects s !! ref) as [wd0|] eqn:Hwd0; [|done].
  intros i r. simpl.
  destruct (decide (i = id wd0)) as [->|Hne].
  - rewrite lookup_delete_eq. split; [done|].
    intros (wd & Hwd & Hi & Ha).
    destruct (decide (ref = r)) as [->|Hne].
    + rewrite list_lookup_alter_eq, Hwd0 in Hwd.
      injection Hwd as <-. done.
    + rewrite list_lookup_alter_ne in Hwd by done.
      destruct Hne. by eapply ids_injective.
  - rewrite lookup_delete_ne by done. rewrite (Hs i r). split.
    + intros (wd & Hwd & Hi & Ha). exists wd.
      rewrite list_lookup_alter_ne; [done|].
      intros ->. rewrite Hwd0 in Hwd. injection Hwd as <-. done.
    + intros (wd & Hwd & Hi & Ha).
      destruct (decide (ref = r)) as [->|Hne'].
      * rewrite list_lookup_alter_eq, Hwd0 in Hwd.
        injection Hwd as <-. done.
      * rewrite list_lookup_alter_ne in Hwd by done. by exists wd.
Qed.

Section Dom.

Variable querySelector : string → option element.

Abbreviation createWidget := (Widgets.createWidget querySelector).
Abbreviation react := (Widgets.react querySelector).
Abbreviation run_page := (Widgets.run_page querySelector).

Lemma registry_consistent_createWidget widgetName t s :
  sequential s → registry_consistent s →
  registry_consistent (state_of (createWidget widgetName t s)).
Proof.
  intros Hseq Hs. unfold Widgets.createWidget.
  destruct (_resolveElement querySelector t) as [element|]; [|done].
  change ("wid_" +:+ pretty (widgetCount s))
    with (widget_id (widgetCount s)).
  pose proof (WidgetsFacts.sequential_unused s Hseq) as Hnew.
  remember (widget_id (widgetCount s)) as wid eqn:Hwid. clear Hwid.
  intros i r. simpl.
  destruct (decide (i = wid)) as [->|Hne].
  - rewrite lookup_insert_eq. split.
    + intros [= <-]. eexists. by rewrite lookup_app_r, Nat.sub_diag.
    + intros (wd & Hwd & Hi & _). f_equal.
      apply lookup_app_Some in Hwd as [Hold|[Hge Hlast]].
      * destruct Hnew. rewrite <- Hi. unfold assigned_ids.
        apply list_elem_of_fmap_2. by eapply list_elem_of_lookup_2.
      * apply lookup_lt_Some in Hlast. simpl in Hlast. lia.
  - rewrite lookup_insert_ne by done. rewrite (Hs i r). split.
    + intros (wd & Hwd & Hrest). exists wd.
      by rewrite (lookup_app_l_Some _ _ _ _ Hwd).
    + intros (wd & Hwd & Hi & Ha).
      apply lookup_app_Some in Hwd as [Hold|[Hge Hlast]]; [by exists wd|].
      destruct (r - length (objects s)) as [|n]; [|done].
      simpl in Hlast. injection Hlast as <-. simpl in Hi. done.
Qed.

Lemma page_invariant evs s :
  sequential s → registry_consistent s →
  sequential (run_page evs s) ∧ registry_consistent (run_page evs s).
Proof.
  revert s. unfold Widgets.run_page.
  induction evs as [|ev evs IH]; intros s Hseq Hreg; [done|].
  simpl. apply IH.
  - destruct ev as [[]|]; simpl.
    + by apply WidgetsFacts.sequential_createWidget.
    + by apply WidgetsFacts.sequential_destroy.
    + by apply sequential_onWidgetMessage.
  - destruct ev as [[]|]; simpl.
    + by apply registry_consistent_createWidget.
    + by apply registry_consistent_destroy.
    + by apply registry_consistent_onWidgetMessage.
Qed.

Lemma registry_consistent_create key : registry_consistent (create key).
Proof.
  intros i r. simpl. rewrite lookup_empty. split; [done|].
  by intros (wd & Hwd & _).
Qed.

(** X15. Whatever the page has done with a new [Saaslet] instance (widgets
    created and destroyed, messages received, in any order), the
    registry holds exactly the widgets that were created and not
    destroyed, each under its own id: an id is registered for a widget
    object if and only if that object has this id and its frame is still
    attached. *)
Theorem registry_holds_the_live_widgets key evs :
  let s := run_page evs (create key) in
  ∀ i ref,
    activeWidgets s !! i = Some ref
    ↔ ∃ wd, objects s !! ref = Some wd ∧ id wd = i
            ∧ attached (iFrame wd) = true.
Proof.
  intros s.
  apply (page_invariant evs (create key)).
  - apply WidgetsFacts.sequential_create.
  - apply registry_consistent_create.
Qed.

(** X16. A widget just created is reachable by its id, from any origin: a
    resize message that names the id handed out by [createWidget]
    resizes that widget, and the widgets registered before are still
    registered. *)
Theorem created_widget_receives_resize
    key evs widgetName t s' ref origin d :
  let s := run_page evs (create key) in
  createWidget widgetName t s = Normal s' ref →
  _onWidgetMessage
    {| origin := origin;
       msg_data := {| source := "saaslet-widget"; action := "resize";
                      widgetId := widget_id (widgetCount s);
                      data := Some d |} |} s'
  = Normal (update_object ref (setSize (d_width d) (d_height d)) s') tt
  ∧ ∀ i r, activeWidgets s !! i = Some r → activeWidgets s' !! i = Some r.
Proof.
  intros s Hcreate.
  destruct (page_invariant evs (create key)
              (WidgetsFacts.sequential_create key)
              (registry_consistent_create key)) as [Hseq Hreg].
  fold s in Hseq, Hreg.
  unfold Widgets.createWidget in Hcreate.
  destruct (_resolveElement querySelector t) as [element|]; [|done].
  change ("wid_" +:+ pretty (widgetCount s))
    with (widget_id (widgetCount s)) in Hcreate.
  pose proof (WidgetsFacts.sequential_unused s Hseq) as Hnew.
  remember (widget_id (widgetCount s)) as wid eqn:Hwid. clear Hwid.
  injection Hcreate as <- <-. split.
  - unfold _onWidgetMessage. simpl.
    by rewrite lookup_insert_eq.
  - intros i r Hi. simpl. rewrite lookup_insert_ne; [done|].
    intros <-. apply Hnew.
    apply Hreg in Hi as (wd & Hwd & <- & _).
    unfold assigned_ids. apply list_elem_of_fmap_2.
    by eapply list_elem_of_lookup_2.
Qed.

End Dom.

(** X17. A message changes nothing but the size of the frame of the widget
    it names: the registry and the counter are as before, every widget
    object is as before except the one registered under the id of a
    widget-tagged resize message, which gets the height asked for and a
    width that is at least the width of its parent element and at least
    the width asked for. *)
Theorem message_changes_only_the_frame_size msg s :
  let s' := state_of (_onWidgetMessage msg s) in
  activeWidgets s' = activeWidgets s
  ∧ widgetCount s' = widgetCount s
  ∧ ∀ k wd', objects s' !! k = Some wd' →
      ∃ wd, objects s !! k = Some wd
        ∧ (wd' = wd
           ∨ ∃ d m,
               source (msg_data msg) = "saaslet-widget"
               ∧ action (msg_data msg) = "resize"
               ∧ activeWidgets s !! widgetId (msg_data msg) = Some k
               ∧ data (msg_data msg) = Some d
               ∧ wd' = setSize (d_width d) (d_height d) wd
               ∧ width (iFrame wd') = Some m
               ∧ height (iFrame wd') = Some (d_height d)
               ∧ (offsetWidth (parentElement wd) ≤ m)%Z
               ∧ (d_width d ≤ m)%Z).
Proof.
  intros s'. unfold s', _onWidgetMessage.
  assert (activeWidgets s = activeWidgets s
          ∧ widgetCount s = widgetCount s
          ∧ ∀ k wd', objects s !! k = Some wd' →
              ∃ wd, objects s !! k = Some wd
                ∧ (wd' = wd
                   ∨ ∃ d m,
                       source (msg_data msg) = "saaslet-widget"
                       ∧ action (msg_data msg) = "resize"
                       ∧ activeWidgets s !! widgetId (msg_data msg) = Some k
                       ∧ data (msg_data msg) = Some d
                       ∧ wd' = setSize (d_width d) (d_height d) wd
                       ∧ width (iFrame wd') = Some m
                       ∧ height (iFrame wd') = Some (d_height d)
                       ∧ (offsetWidth (parentElement wd) ≤ m)%Z
                       ∧ (d_width d ≤ m)%Z)) as Hsame.
  { split; [done|]. split; [done|]. intros k wd' Hk. exists wd'. by split; [|left]. }
  case_bool_decide as Hsource; simpl; [|exact Hsame].
  case_bool_decide as Haction; simpl; [|exact Hsame].
  destruct (activeWidgets s !! widgetId (msg_data msg)) as [ref|] eqn:Href;
    [|exact Hsame].
  destruct (data (msg_data msg)) as [d|] eqn:Hd; [|exact Hsame].
  clear Hsame. simpl. split; [done|]. split; [done|].
  intros k wd' Hk.
  destruct (decide (ref = k)) as [->|Hne].
  - rewrite list_lookup_alter_eq in Hk.
    destruct (objects s !! k) as [wd|]; [|done].
    injection Hk as <-. exists wd. split; [done|]. right.
    exists d, (Z.max (offsetWidth (parentElement wd)) (d_width d)).
    repeat split; try done; simpl; lia.
  - rewrite list_lookup_alter_ne in Hk by done. eauto.
Qed.

(** Two widgets, the first destroyed, a resize for the second: only the
    second is registered, under [wid_1]. *)
Lemma registry_holds_the_live_widgets_witness :
  let s := run_page sample_document
             [ Called (Create "login-signup" (Selector "#app"));
               Called (Create "payment" (Selector "#app"));
               Called (Destroy 0);
               Received
                 (Message "http://devapp.saaslet.com:8080"
                    {| source := "saaslet-widget"; action := "resize";
                       widgetId := "wid_1";
                       data := Some {| d_width := 200; d_height := 150 |} |}) ]
             (create "pk") in
  activeWidgets s !! "wid_1" = Some 1
  ∧ ∃ wd, objects s !! 1 = Some wd ∧ id wd = "wid_1"
          ∧ attached (iFrame wd) = true.
Proof.
  intros s.
  assert (activeWidgets s !! "wid_1" = Some 1) as H
    by (vm_compute; reflexivity).
  split; [exact H|].
  exact (proj1 (registry_holds_the_live_widgets sample_document "pk"
                  [ Called (Create "login-signup" (Selector "#app"));
                    Called (Create "payment" (Selector "#app"));
                    Called (Destroy 0);
                    Received
                      (Message "http://devapp.saaslet.com:8080"
                         {| source := "saaslet-widget"; action := "resize";
                            widgetId := "wid_1";
                            data := Some {| d_width := 200;
                                            d_height := 150 |} |}) ]
                  "wid_1" 1) H).
Defined.

Lemma created_widget_receives_resize_witness :
  let s := run_page sample_document
             [ Called (Create "login-signup" (Selector "#app"));
               Called (Destroy 0) ] (create "pk") in
  let s' := state_of (createWidget sample_document "payment"
                        (Selector "#app") s) in
  _onWidgetMessage
    {| origin := "http://devapp.saaslet.com:8080";
       msg_data := {| source := "saaslet-widget"; action := "resize";
                      widgetId := widget_id (widgetCount s);
                      data := Some {| d_width := 200; d_height := 150 |} |} |}
    s'
  = Normal (update_object 1 (setSize 200 150) s') tt.
Proof.
  intros s s'.
  destruct (created_widget_receives_resize sample_document "pk"
              [ Called (Create "login-signup" (Selector "#app"));
                Called (Destroy 0) ]
              "payment" (Selector "#app") s' 1
              "http://devapp.saaslet.com:8080"
              {| d_width := 200; d_height := 150 |}) as [H _].
  - vm_compute. reflexivity.
  - exact H.
Defined.

End WidgetsMore.
